(** * Toaster: incremental failure injection

    A shallow embedding of [src/toaster.c] (the failure budget and the run
    driver) and of the [TEST]/[CHECK] macros of [toaster.h], with the
    properties of the budget counter and of the sweep proved about it.

    The counter [gcnt], the flag [gset] and the loop index [i] are C [int]s.
    They are modelled as [Z] restricted to 32 bits; [--gcnt] and [++i] are
    written with the two's-complement wrap-around the compiled code performs
    at the ends of the range (ISO C leaves that overflow undefined).  The
    logging macros only print and are left out. *)

From Stdlib Require Import ZArith List Bool Lia.
From Stdlib Require String.
Import ListNotations.
Open Scope Z_scope.

(** ** C [int] *)

Module Int.

Definition INT_MIN : Z := -2147483648.
Definition INT_MAX : Z := 2147483647.

Definition in_range (z : Z) : Prop := INT_MIN <= z <= INT_MAX.

(** The value an [int] holds after an arithmetic result [z]. *)
Definition wrap (z : Z) : Z := (z + 2147483648) mod 4294967296 - 2147483648.

End Int.

Import Int.

(** ** The budget: [static int gcnt; static int gset;] *)

Record toaster : Type := mkToaster { gcnt : Z; gset : Z }.

(** Static storage is zero-initialised: the budget starts disarmed. *)
Definition toaster_init : toaster := mkToaster 0 0.

(** [if(gset && --gcnt < 0) return -1; return 0;]  The decrement happens
    only when [gset] is non-zero ([&&] short-circuits). *)
Definition toaster_check (t : toaster) : Z * toaster :=
  if negb (gset t =? 0) then
    let c := wrap (gcnt t - 1) in
    if c <? 0 then (-1, mkToaster c (gset t)) else (0, mkToaster c (gset t))
  else (0, t).

(** [gcnt = cnt; gset = 1;] *)
Definition toaster_set (cnt : Z) (t : toaster) : toaster := mkToaster cnt 1.

(** [if(gset) return gcnt; return -1;] *)
Definition toaster_get (t : toaster) : Z :=
  if negb (gset t =? 0) then gcnt t else -1.

(** [gcnt = 0; gset = 0;] *)
Definition toaster_end (t : toaster) : toaster := mkToaster 0 0.

(** The budget after [n] consecutive calls of [toaster_check], and the value
    returned by the call that follows them (call number [n + 1]). *)
Fixpoint check_n (n : nat) (t : toaster) : toaster :=
  match n with
  | O => t
  | S n' => check_n n' (snd (toaster_check t))
  end.

Definition nth_check (n : nat) (t : toaster) : Z :=
  fst (toaster_check (check_n n t)).

Definition pass : Z := 0.
Definition fail : Z := -1.

(** ** Observable events

    The trace is ghost state: it records, in program order, every call into
    the budget and every invocation of the function under test. *)

Inductive event : Type :=
| EvCheck (r : Z)     (* toaster_check() returned r *)
| EvSet (cnt : Z)     (* toaster_set(cnt) *)
| EvEnd               (* toaster_end() *)
| EvCall              (* test() entered *)
| EvRet (err : Z).    (* test() returned err *)

Definition checks (tr : list event) : list Z :=
  flat_map (fun e => match e with EvCheck r => [r] | _ => [] end) tr.

Definition budgets (tr : list event) : list Z :=
  flat_map (fun e => match e with EvSet cnt => [cnt] | _ => [] end) tr.

Definition outcomes (tr : list event) : list Z :=
  flat_map (fun e => match e with EvRet err => [err] | _ => [] end) tr.

Definition calls (tr : list event) : nat :=
  length (flat_map (fun e => match e with EvCall => [tt] | _ => [] end) tr).

(** An invocation succeeded when it returned 0. *)
Definition succeeded (err : Z) : bool := err =? 0.

(** The three components of what running a piece of code gives: the value
    it returns, the memory it leaves and the trace it produced. *)
Abbreviation value_of r := (fst (fst r)) (only parsing).
Abbreviation mem_of r := (snd (fst r)) (only parsing).
Abbreviation trace_of r := (snd r) (only parsing).

(** [start, start + 1, ..., start + len - 1] *)
Fixpoint Zseq (start : Z) (len : nat) : list Z :=
  match len with
  | O => []
  | S len' => start :: Zseq (start + 1) len'
  end.

(** ** Functions under test and the run driver *)

Section Harness.

(** Everything a function under test reads and writes besides the budget
    (sockets, files, its own variables). *)
Variable W : Type.

Record mem : Type := mkMem { world : W; budget : toaster }.

(** The code of a function under test.  [gcnt] and [gset] are [static] in
    toaster.c, so such code reaches the budget only through the four
    functions toaster.h declares; anything else it does is an effect on [W]. *)
Inductive prog (A : Type) : Type :=
| Ret (a : A)
| CallCheck (k : Z -> prog A)               (* r = toaster_check(); k r *)
| CallGet (k : Z -> prog A)                 (* v = toaster_get(); k v *)
| CallSet (cnt : Z) (k : prog A)            (* toaster_set(cnt); k *)
| CallEnd (k : prog A)                      (* toaster_end(); k *)
| Expr (e : W -> Z * W) (k : Z -> prog A).  (* v = e; k v *)

Arguments Ret {A} a.
Arguments CallCheck {A} k.
Arguments CallGet {A} k.
Arguments CallSet {A} cnt k.
Arguments CallEnd {A} k.
Arguments Expr {A} e k.

Fixpoint exec {A : Type} (p : prog A) (m : mem) : A * mem * list event :=
  match p with
  | Ret a => (a, m, [])
  | CallCheck k =>
      let (r, t) := toaster_check (budget m) in
      let '(a, m', tr) := exec (k r) (mkMem (world m) t) in
      (a, m', EvCheck r :: tr)
  | CallGet k => exec (k (toaster_get (budget m))) m
  | CallSet cnt k =>
      let '(a, m', tr) :=
        exec k (mkMem (world m) (toaster_set cnt (budget m))) in
      (a, m', EvSet cnt :: tr)
  | CallEnd k =>
      let '(a, m', tr) := exec k (mkMem (world m) (toaster_end (budget m))) in
      (a, m', EvEnd :: tr)
  | Expr e k =>
      let (v, w) := e (world m) in exec (k v) (mkMem w (budget m))
  end.

(** Code that never calls [toaster_set]. *)
Fixpoint no_arm {A : Type} (p : prog A) : Prop :=
  match p with
  | Ret _ => True
  | CallCheck k => forall r, no_arm (k r)
  | CallGet k => forall v, no_arm (k v)
  | CallSet _ _ => False
  | CallEnd k => no_arm k
  | Expr _ k => forall v, no_arm (k v)
  end.

(** *** toaster.h: the [TEST] macro, compiled with [-DTOASTER]

    [if(!err) err = -1;] on the two branches that leave through
    [goto CHECK(err)]. *)
Definition fail_with (err : Z) : Z := if err =? 0 then -1 else err.

(** [TEST(err, expr)] followed by the rest of the function body [next];
    [CHECK] is the code at the function's [CHECK(err):] label.

    [if(0 != toaster_check()) { if(!err) err = -1; goto CHECK(err); }
     else if(!(expr)) { if(!err) err = -1; goto CHECK(err); } else { }] *)
Definition TEST {A : Type} (err : Z) (expr : W -> Z * W)
    (CHECK : Z -> prog A) (next : Z -> prog A) : prog A :=
  CallCheck (fun r =>
    if negb (r =? 0) then CHECK (fail_with err)
    else Expr expr (fun v =>
      if v =? 0 then CHECK (fail_with err) else next err)).

(** [TEST(err, e1); ...; TEST(err, ek);] falling through to [CHECK(err):]. *)
Fixpoint tests (es : list (W -> Z * W)) (err : Z) (CHECK : Z -> prog Z)
    : prog Z :=
  match es with
  | [] => CHECK err
  | e :: es' => TEST err e CHECK (fun err' => tests es' err' CHECK)
  end.

(** The exit section of such a function: [CHECK(err): cleanup; return err;] *)
Definition exit_section (cleanup : W -> W) (err : Z) : prog Z :=
  Expr (fun w => (0, cleanup w)) (fun _ => Ret err).

(** A function written in the single-exit convention of test.c:
    [int err = 0; TEST(err, e1); ...; TEST(err, ek);
     CHECK(err): cleanup; return err;] *)
Definition checkpoint_fn (es : list (W -> Z * W)) (cleanup : W -> W)
    : prog Z :=
  tests es 0 (exit_section cleanup).

(** The real condition of a checkpoint holds whenever it is evaluated. *)
Definition holds (e : W -> Z * W) : Prop := forall w, fst (e w) <> 0.

(** *** Functions the sweep is meant for

    [propagates p]: the code [p] reports failure however it is entered.
    [checkpoints k p]: as long as every [toaster_check] passes, [p] reaches
    exactly [k] of them and then returns 0 (its success path); and a
    [toaster_check] that fails is propagated: the code that follows it
    reports failure. *)
Definition propagates (p : prog Z) : Prop :=
  forall m, fst (fst (exec p m)) <> 0.

Inductive checkpoints : nat -> prog Z -> Prop :=
| cp_return : checkpoints O (Ret 0)
| cp_check k (c : Z -> prog Z) :
    checkpoints k (c pass) -> propagates (c fail) ->
    checkpoints (S k) (CallCheck c)
| cp_get k (c : Z -> prog Z) :
    (forall v, checkpoints k (c v)) -> checkpoints k (CallGet c)
| cp_expr k (e : W -> Z * W) (c : Z -> prog Z) :
    (forall w, checkpoints k (c (fst (e w)))) -> checkpoints k (Expr e c).

(** *** toaster.c: the run driver *)

(** One invocation [test()] through the function pointer. *)
Definition call (test : prog Z) (m : mem) : Z * mem * list event :=
  let '(err, m', tr) := exec test m in
  (err, m', EvCall :: tr ++ [EvRet err]).

(** [return test();] *)
Definition toaster_run (test : prog Z) (m : mem) : Z * mem * list event :=
  call test m.

(** [for(i = min; i <= max && err != 0; ++i) { toaster_set(i); err = test(); }]
    entered at the loop test with the current [i] and [err].  One unit of
    fuel is spent per evaluation of the loop test; when it runs out the
    result is [None] and the trace is that of the iterations made. *)
Fixpoint run_loop (fuel : nat) (test : prog Z) (i max err : Z) (m : mem)
    : option Z * mem * list event :=
  match fuel with
  | O => (None, m, [])
  | S fuel' =>
      if (i <=? max) && negb (err =? 0) then
        let m1 := mkMem (world m) (toaster_set i (budget m)) in
        let '(err', m2, tr) := call test m1 in
        let '(r, m3, tr') := run_loop fuel' test (wrap (i + 1)) max err' m2 in
        (r, m3, EvSet i :: tr ++ tr')
      else (Some err, m, [])
  end.

(** [int err = -1; for(...) {...} toaster_end(); return err;] *)
Definition toaster_run_range (fuel : nat) (min max : Z) (test : prog Z)
    (m : mem) : option Z * mem * list event :=
  match run_loop fuel test min max (-1) m with
  | (Some err, m', tr) =>
      (Some err, mkMem (world m') (toaster_end (budget m')), tr ++ [EvEnd])
  | (None, m', tr) => (None, m', tr)
  end.

(** [return toaster_run_range(0, max, test);] *)
Definition toaster_run_max (fuel : nat) (max : Z) (test : prog Z) (m : mem)
    : option Z * mem * list event :=
  toaster_run_range fuel 0 max test m.

End Harness.

Arguments mkMem {W} world budget.
Arguments world {W} m.
Arguments budget {W} m.
Arguments Ret {W A} a.
Arguments CallCheck {W A} k.
Arguments CallGet {W A} k.
Arguments CallSet {W A} cnt k.
Arguments CallEnd {W A} k.
Arguments Expr {W A} e k.
Arguments exec {W A} p m.
Arguments no_arm {W A} p.
Arguments TEST {W A} err expr CHECK next.
Arguments tests {W} es err CHECK.
Arguments exit_section {W} cleanup err.
Arguments checkpoint_fn {W} es cleanup.
Arguments holds {W} e.
Arguments propagates {W} p.
Arguments checkpoints {W} k p.
Arguments call {W} test m.
Arguments toaster_run {W} test m.
Arguments run_loop {W} fuel test i max err m.
Arguments toaster_run_range {W} fuel min max test m.
Arguments toaster_run_max {W} fuel max test m.

(** ** Sample functions under test *)

Module Sample.

(** A function that reports failure without reaching any checkpoint:
    [int never(void) { return -1; }] *)
Definition never : prog unit Z := Ret (-1).

(** [int err = 0; TEST(err, 1); CHECK(err): return err;] *)
Definition one_test : prog unit Z :=
  checkpoint_fn [fun w => (1, w)] (fun w => w).

(** Three checkpoints in sequence (open, configure, bind) over a resource
    handle that the exit section releases; the world is the number of
    handles currently open. *)
Definition open_handle (w : nat) : Z * nat := (1, S w).
Definition configure (w : nat) : Z * nat := (1, w).
Definition bind_handle (w : nat) : Z * nat := (1, w).
Definition release (w : nat) : nat := Nat.pred w.

Definition open_configure_bind : prog nat Z :=
  checkpoint_fn [open_handle; configure; bind_handle] release.

End Sample.

(** ** Composite code, and the other build of [TEST] *)

Section Composite.

Variable W : Type.

(** [p] followed by the code [f] that uses its value: a call of a function
    from another one. *)
Fixpoint and_then {A B : Type} (p : prog W A) (f : A -> prog W B)
    : prog W B :=
  match p with
  | Ret a => f a
  | CallCheck k => CallCheck (fun r => and_then (k r) f)
  | CallGet k => CallGet (fun v => and_then (k v) f)
  | CallSet cnt k => CallSet cnt (and_then k f)
  | CallEnd k => CallEnd (and_then k f)
  | Expr e k => Expr e (fun v => and_then (k v) f)
  end.

(** [Q] holds of the value returned and of the world left on every path
    through [p], whatever [toaster_check] answers along the way. *)
Fixpoint on_every_path {A : Type} (p : prog W A) (Q : A -> W -> Prop)
    (w : W) : Prop :=
  match p with
  | Ret a => Q a w
  | CallCheck k => on_every_path (k pass) Q w /\ on_every_path (k fail) Q w
  | CallGet k => forall v, on_every_path (k v) Q w
  | CallSet _ k => on_every_path k Q w
  | CallEnd k => on_every_path k Q w
  | Expr e k => on_every_path (k (fst (e w))) Q (snd (e w))
  end.

(** The value of a C condition. *)
Definition truth (b : bool) : Z := if b then 1 else 0.

(** [TEST(err, expr)] where [expr] is itself code that may reach checkpoints
    and assign locals of the enclosing function (a call such as
    [!unix_sock_create_and_bind("foo", &a)]): [l] holds the locals before,
    [expr] yields its value and the locals after.  An injected failure
    leaves for [CHECK] before [expr] is evaluated. *)
Definition TEST_loc {A L : Type} (err : Z) (l : L) (expr : prog W (Z * L))
    (CHECK : L -> Z -> prog W A) (next : L -> Z -> prog W A) : prog W A :=
  CallCheck (fun r =>
    if negb (r =? 0) then CHECK l (fail_with err)
    else and_then expr (fun vl =>
      if fst vl =? 0 then CHECK (snd vl) (fail_with err)
      else next (snd vl) err)).

(** toaster.h compiled without [-DTOASTER]: [TOASTER_INJECT_FAILURE]
    expands to nothing and [TEST] is
    [if(!(expr)) { if(!err) err = -1; goto CHECK(err); } else { }] *)
Definition TEST_plain {A : Type} (err : Z) (expr : W -> Z * W)
    (CHECK : Z -> prog W A) (next : Z -> prog W A) : prog W A :=
  Expr expr (fun v => if v =? 0 then CHECK (fail_with err) else next err).

Fixpoint tests_plain (es : list (W -> Z * W)) (err : Z)
    (CHECK : Z -> prog W Z) : prog W Z :=
  match es with
  | [] => CHECK err
  | e :: es' => TEST_plain err e CHECK (fun err' => tests_plain es' err' CHECK)
  end.

(** The function [checkpoint_fn es cleanup] in the build without
    [-DTOASTER]. *)
Definition plain_fn (es : list (W -> Z * W)) (cleanup : W -> W) : prog W Z :=
  tests_plain es 0 (exit_section cleanup).

(** The real operations [es] carried out in order up to and including the
    first whose condition is false: whether all held, and the world left. *)
Fixpoint run_exprs (es : list (W -> Z * W)) (w : W) : bool * W :=
  match es with
  | [] => (true, w)
  | e :: es' =>
      let (v, w') := e w in
      if v =? 0 then (false, w') else run_exprs es' w'
  end.

End Composite.

Arguments and_then {W A B} p f.
Arguments on_every_path {W A} p Q w.
Arguments TEST_loc {W A L} err l expr CHECK next.
Arguments TEST_plain {W A} err expr CHECK next.
Arguments tests_plain {W} es err CHECK.
Arguments plain_fn {W} es cleanup.
Arguments run_exprs {W} es w.

(** ** test.c *)

(** The two socket paths of [test_talk]. *)
Module Path.
Import String.
Definition foo : string := "foo".
Definition bar : string := "bar".
End Path.

Section TestC.

Variable W : Type.

(** The C library and the operating system as test.c uses them.  The
    buffers [recv], [addr] and [len] that [recvfrom] fills are part of the
    world; the three conditions on them are observations of it. *)
Record libc : Type := mkLibc {
  real_socket : W -> Z * W;       (* the next [socket] in link order *)
  real_bind : Z -> String.string -> W -> Z * W;  (* the next [bind] *)
  close : Z -> W -> W;            (* return value unused *)
  unlink : String.string -> W -> W;
  sendto : Z -> String.string -> W -> Z * W; (* bytes of "hello world" sent *)
  recvfrom : Z -> W -> Z * W;     (* bytes received *)
  len_fits : W -> bool;           (* [len <= sizeof(addr)] *)
  addr_is_foo : W -> bool;        (* [0 == memcmp(addr.sun_path, "foo", 3)] *)
  recv_is_send : W -> bool;       (* [0 == memcmp(send, recv, 11)] *)
  sun_path_size : Z               (* [sizeof(addr.sun_path)] *)
}.

Variable c : libc.

(** [if(!toaster_check()) return real(sockfd, addr, addrlen); return -1;] *)
Definition bind (sockfd : Z) (path : String.string) : prog W Z :=
  CallCheck (fun r =>
    if r =? 0 then Expr (real_bind c sockfd path) Ret else Ret (-1)).

(** [if(!toaster_check()) return real(domain, type, protocol); return -1;] *)
Definition socket : prog W Z :=
  CallCheck (fun r => if r =? 0 then Expr (real_socket c) Ret else Ret (-1)).

(** [unix_sock_create_and_bind(path, fd)]; the second argument is the value
    of [*fd] at the call and the result is [(err, *fd)] at the return.

    [int err = 0; sz = strlen(path); s = socket(...);
     TEST(err, s >= 0); TEST(err, sz <= sizeof(addr.sun_path));
     TEST(err, !bind(s, &addr, sizeof(addr))); *fd = s; s = -1;
     CHECK(err): if(s != -1) close(s); return err;] *)
Definition unix_sock_create_and_bind (path : String.string) (fd : Z)
    : prog W (Z * Z) :=
  and_then socket (fun s =>
    let CHECK := fun err : Z =>
      if negb (s =? -1)
      then Expr (fun w => (0, close c s w)) (fun _ => Ret (err, fd))
      else Ret (err, fd) in
    TEST 0 (fun w => (truth (0 <=? s), w)) CHECK (fun err =>
    TEST err
      (fun w => (truth (Z.of_nat (String.length path) <=? sun_path_size c), w))
      CHECK (fun err =>
    TEST_loc err tt
      (and_then (bind s path) (fun r => Ret (truth (r =? 0), tt)))
      (fun _ => CHECK) (fun _ err => Ret (err, s))))).

(** The exit section of [test_talk] for locals [a] and [b]:
    [if(-1 != a) close(a); if(-1 != b) close(b);
     unlink("foo"); unlink("bar"); return err;] *)
Definition talk_exit (ab : Z * Z) (err : Z) : prog W Z :=
  Expr (fun w =>
          let w1 := if negb (fst ab =? -1) then close c (fst ab) w else w in
          let w2 := if negb (snd ab =? -1) then close c (snd ab) w1 else w1 in
          (0, unlink c Path.bar (unlink c Path.foo w2)))
       (fun _ => Ret err).

(** [int err = 0; int a = -1, b = -1;
     TEST(err, !unix_sock_create_and_bind("foo", &a));
     TEST(err, !unix_sock_create_and_bind("bar", &b));
     TEST(err, strlen(send) == sendto(a, send, ..., "bar"));
     TEST(err, 0 < recvfrom(b, recv, ...));
     TEST(err, len <= sizeof(addr));
     TEST(err, 0 == memcmp(addr.sun_path, "foo", strlen("foo")));
     TEST(err, 0 == memcmp(send, recv, strlen(send)));
     CHECK(err): ...] *)
Definition test_talk : prog W Z :=
  TEST_loc 0 (-1, -1)
    (and_then (unix_sock_create_and_bind Path.foo (-1))
       (fun r => Ret (truth (fst r =? 0), (snd r, -1))))
    talk_exit (fun ab err =>
  TEST_loc err ab
    (and_then (unix_sock_create_and_bind Path.bar (snd ab))
       (fun r => Ret (truth (fst r =? 0), (fst ab, snd r))))
    talk_exit (fun ab err =>
  TEST err
    (fun w => let (n, w') := sendto c (fst ab) Path.bar w in (truth (n =? 11), w'))
    (talk_exit ab) (fun err =>
  TEST err
    (fun w => let (n, w') := recvfrom c (snd ab) w in (truth (0 <? n), w'))
    (talk_exit ab) (fun err =>
  TEST err (fun w => (truth (len_fits c w), w)) (talk_exit ab) (fun err =>
  TEST err (fun w => (truth (addr_is_foo c w), w)) (talk_exit ab) (fun err =>
  TEST err (fun w => (truth (recv_is_send c w), w)) (talk_exit ab)
    (talk_exit ab))))))).

(** How a process ends: [return code;] from [main], or a failed [assert]. *)
Inductive status : Type :=
| Exit (code : Z)
| Abort.

(** [assert(0 == toaster_run_max(100, test_talk)); return 0;] *)
Definition main (fuel : nat) (m : mem W) : option status * mem W * list event :=
  match toaster_run_max fuel 100 test_talk m with
  | (Some r, m', tr) => (Some (if 0 =? r then Exit 0 else Abort), m', tr)
  | (None, m', tr) => (None, m', tr)
  end.

(** An environment in which every real operation of [test_talk] succeeds. *)
Record cooperative : Prop := mkCooperative {
  socket_ok : forall w, 0 <= fst (real_socket c w);
  path_ok : 3 <= sun_path_size c;
  bind_ok : forall s p w, fst (real_bind c s p w) = 0;
  sendto_ok : forall s p w, fst (sendto c s p w) = 11;
  recvfrom_ok : forall s w, 0 < fst (recvfrom c s w);
  len_ok : forall w, len_fits c w = true;
  addr_ok : forall w, addr_is_foo c w = true;
  data_ok : forall w, recv_is_send c w = true
}.

(** What the operations do to the descriptors that are open, [fds]:
    [socket] opens a new one unless it returns -1, [close] closes the one it
    is given, the others open and close nothing. *)
Variable fds : W -> list Z.

Record descriptor_laws : Prop := mkDescriptorLaws {
  socket_opens : forall w,
    let s := fst (real_socket c w) in
    let w' := snd (real_socket c w) in
    (s = -1 -> fds w' = fds w) /\
    (s <> -1 -> fds w' = s :: fds w /\ ~ In s (fds w));
  close_closes : forall s w, fds (close c s w) = remove Z.eq_dec s (fds w);
  bind_keeps : forall s p w, fds (snd (real_bind c s p w)) = fds w;
  unlink_keeps : forall p w, fds (unlink c p w) = fds w;
  sendto_keeps : forall s p w, fds (snd (sendto c s p w)) = fds w;
  recvfrom_keeps : forall s w, fds (snd (recvfrom c s w)) = fds w
}.

End TestC.

Arguments mkLibc {W}.
Arguments real_socket {W} l w.
Arguments real_bind {W} l s p w.
Arguments close {W} l s w.
Arguments unlink {W} l p w.
Arguments sendto {W} l s p w.
Arguments recvfrom {W} l s w.
Arguments len_fits {W} l w.
Arguments addr_is_foo {W} l w.
Arguments recv_is_send {W} l w.
Arguments sun_path_size {W} l.
Arguments bind {W} c sockfd path.
Arguments socket {W} c.
Arguments unix_sock_create_and_bind {W} c path fd.
Arguments talk_exit {W} c ab err.
Arguments test_talk {W} c.
Arguments main {W} c fuel m.
Arguments cooperative {W} c.
Arguments descriptor_laws {W} c fds.

(** A small operating system for running test.c: the world is the list of
    open descriptors, [socket] hands out one above all of them, and every
    transfer succeeds. *)
Module SampleOS.

Definition fresh (w : list Z) : Z := fold_right Z.max 2 w + 1.

Definition os : libc (list Z) :=
  mkLibc
    (fun w => (fresh w, fresh w :: w))
    (fun _ _ w => (0, w))
    (fun s w => remove Z.eq_dec s w)
    (fun _ w => w)
    (fun _ _ w => (11, w))
    (fun _ w => (11, w))
    (fun _ => true) (fun _ => true) (fun _ => true)
    108.

End SampleOS.

(** ** Facts about C [int] arithmetic *)

Lemma wrap_id z : in_range z -> wrap z = z.
Proof.
  unfold in_range, INT_MIN, INT_MAX, wrap. intros H.
  rewrite Z.mod_small; lia.
Qed.

Lemma wrap_range z : in_range (wrap z).
Proof.
  unfold in_range, INT_MIN, INT_MAX, wrap.
  pose proof (Z.mod_pos_bound (z + 2147483648) 4294967296). lia.
Qed.

Lemma wrap_sub_wrap a b : wrap (wrap a - b) = wrap (a - b).
Proof.
  unfold wrap.
  replace ((a + 2147483648) mod 4294967296 - 2147483648 - b + 2147483648)
    with ((a + 2147483648) mod 4294967296 - b) by lia.
  replace (a - b + 2147483648) with (a + 2147483648 - b) by lia.
  rewrite Zminus_mod_idemp_l. reflexivity.
Qed.

(** One step below [INT_MIN] lands on [INT_MAX]. *)
Lemma wrap_below_min : wrap (INT_MIN - 1) = INT_MAX.
Proof. reflexivity. Qed.

Lemma wrap_above_max : wrap (INT_MAX + 1) = INT_MIN.
Proof. reflexivity. Qed.


(** ** The counter under repeated consumption *)

Lemma toaster_check_armed t :
  gset t <> 0 ->
  toaster_check t =
    (if wrap (gcnt t - 1) <? 0 then fail else pass,
     mkToaster (wrap (gcnt t - 1)) (gset t)).
Proof.
  intros H. unfold toaster_check.
  destruct (gset t =? 0) eqn:E; [apply Z.eqb_eq in E; contradiction|].
  simpl. destruct (wrap (gcnt t - 1) <? 0); reflexivity.
Qed.

Lemma toaster_check_disarmed t :
  gset t = 0 -> toaster_check t = (pass, t).
Proof.
  intros H. unfold toaster_check. rewrite H. reflexivity.
Qed.

(** While armed the counter goes down by one per call, modulo 2^32: nothing
    in [toaster_check] stops it at a floor. *)
Lemma check_n_armed n : forall t,
  gset t <> 0 -> in_range (gcnt t) ->
  check_n n t = mkToaster (wrap (gcnt t - Z.of_nat n)) (gset t).
Proof.
  induction n as [|n IH]; intros t H R.
  - cbn [check_n]. replace (gcnt t - Z.of_nat 0) with (gcnt t) by lia.
    rewrite wrap_id by assumption. destruct t; reflexivity.
  - cbn [check_n]. rewrite toaster_check_armed by assumption. cbn [snd].
    rewrite IH; cbn [gcnt gset]; [|assumption|apply wrap_range].
    rewrite wrap_sub_wrap. f_equal. f_equal. lia.
Qed.

Lemma nth_check_armed n t :
  gset t <> 0 -> in_range (gcnt t) ->
  nth_check n t = if wrap (gcnt t - Z.of_nat n - 1) <? 0 then fail else pass.
Proof.
  intros H R. unfold nth_check. rewrite check_n_armed by assumption.
  rewrite toaster_check_armed by assumption. cbn [fst gcnt].
  rewrite wrap_sub_wrap. reflexivity.
Qed.

(** The outcome of call number [j + 1] while the counter has not wrapped. *)
Lemma nth_check_window (j : nat) (t : toaster) :
  gset t <> 0 -> in_range (gcnt t) -> INT_MIN <= gcnt t - Z.of_nat j - 1 ->
  nth_check j t = if gcnt t - Z.of_nat j - 1 <? 0 then fail else pass.
Proof.
  intros A R L. rewrite nth_check_armed by assumption.
  rewrite wrap_id; [reflexivity|].
  unfold in_range, INT_MIN, INT_MAX in *. lia.
Qed.

Lemma nth_check_fails (j : nat) (t : toaster) :
  gset t <> 0 -> in_range (gcnt t) ->
  INT_MIN <= gcnt t - Z.of_nat j - 1 < 0 ->
  nth_check j t = fail.
Proof.
  intros A R [L U]. rewrite nth_check_window by assumption.
  apply Z.ltb_lt in U. rewrite U. reflexivity.
Qed.

Lemma nth_check_passes (j : nat) (t : toaster) :
  gset t <> 0 -> in_range (gcnt t) -> 0 <= gcnt t - Z.of_nat j - 1 ->
  nth_check j t = pass.
Proof.
  intros A R L. rewrite nth_check_window;
    [|assumption|assumption|unfold INT_MIN; lia].
  apply Z.ltb_ge in L. rewrite L. reflexivity.
Qed.

Lemma check_n_disarmed n : forall t, gset t = 0 -> check_n n t = t.
Proof.
  induction n as [|n IH]; intros t H; [reflexivity|].
  cbn [check_n]. rewrite toaster_check_disarmed by assumption. apply IH, H.
Qed.

(** ** Arming, consuming, disarming *)

(** X17.  After [toaster_set(n)] with [0 <= n <= INT_MAX]: each of the
    first [n] calls of [toaster_check] returns pass (0), call number [n + 1]
    returns fail (-1), and so does every further call up to call number
    [n + 2^31], the last one that [--gcnt] reaches without overflow.  (Calls
    are numbered from 1; [nth_check j] is call number [j + 1].) *)
Theorem toaster_set_then_checks (n : Z) (t : toaster) (j : nat) :
  0 <= n <= INT_MAX ->
  (Z.of_nat j < n -> nth_check j (toaster_set n t) = pass) /\
  nth_check (Z.to_nat n) (toaster_set n t) = fail /\
  (n <= Z.of_nat j <= n + INT_MAX -> nth_check j (toaster_set n t) = fail).
Proof.
  intros Hn.
  assert (A : gset (toaster_set n t) <> 0) by (cbn [gset toaster_set]; lia).
  assert (R : in_range (gcnt (toaster_set n t)))
    by (cbn [gcnt toaster_set]; unfold in_range, INT_MIN, INT_MAX in *; lia).
  unfold INT_MAX in *.
  split; [|split].
  - intros Hj. apply nth_check_passes; try assumption.
    cbn [gcnt toaster_set]. lia.
  - apply nth_check_fails; try assumption.
    cbn [gcnt toaster_set]. unfold INT_MIN. rewrite Z2Nat.id; lia.
  - intros Hj. apply nth_check_fails; try assumption.
    cbn [gcnt toaster_set]. unfold INT_MIN. lia.
Qed.

Lemma toaster_set_then_checks_witness :
  nth_check 1 (toaster_set 2 toaster_init) = pass /\
  nth_check 2 (toaster_set 2 toaster_init) = fail /\
  nth_check 7 (toaster_set 2 toaster_init) = fail.
Proof.
  assert (H : 0 <= 2 <= INT_MAX) by (unfold INT_MAX; lia).
  split; [|split].
  - apply (proj1 (toaster_set_then_checks 2 toaster_init 1 H)). simpl. lia.
  - apply (proj1 (proj2 (toaster_set_then_checks 2 toaster_init 1 H))).
  - apply (proj2 (proj2 (toaster_set_then_checks 2 toaster_init 7 H))).
    unfold INT_MAX. simpl. lia.
Defined.

(** C1, evaluated where it fails.  After [toaster_set(0)], call number
    [2^31 + 1] of [toaster_check] returns pass although the budget was used
    up long before and has not been armed again.  The 2^31 calls before it
    take [gcnt] from 0 down to [INT_MIN]; this one executes [--gcnt] once
    more, the decrement overflows, the value wraps to [INT_MAX], and
    [INT_MAX < 0] is false. *)
Lemma toaster_set_checks_wrap :
  nth_check (Z.to_nat 2147483648) (toaster_set 0 toaster_init) = pass.
Proof.
  rewrite nth_check_armed.
  - rewrite Z2Nat.id by lia. reflexivity.
  - cbn. lia.
  - cbn. unfold in_range, INT_MIN, INT_MAX. lia.
Qed.

(** X18.  While armed, once the counter is below 0 (at [c]), the next
    [2^31 + c] calls of [toaster_check] all report failure, and each of them
    still decrements the counter, down to [INT_MIN]. *)
Theorem check_fails_below_zero (t : toaster) (j : nat) :
  gset t <> 0 -> INT_MIN <= gcnt t < 0 ->
  Z.of_nat j < 2147483648 + gcnt t ->
  nth_check j t = fail /\
  gcnt (check_n (S j) t) = gcnt t - Z.of_nat j - 1.
Proof.
  intros A R Hj. unfold INT_MIN in R.
  assert (R' : in_range (gcnt t)) by (unfold in_range, INT_MIN, INT_MAX; lia).
  split.
  - apply nth_check_fails; try assumption. unfold INT_MIN. lia.
  - rewrite check_n_armed by assumption. cbn [gcnt].
    rewrite wrap_id by (unfold in_range, INT_MIN, INT_MAX; lia). lia.
Qed.

Lemma check_fails_below_zero_witness :
  nth_check 4 (mkToaster (-1) 1) = fail /\
  gcnt (check_n 5 (mkToaster (-1) 1)) = -1 - 4 - 1.
Proof.
  apply (check_fails_below_zero (mkToaster (-1) 1) 4).
  - simpl. lia.
  - unfold INT_MIN. simpl. lia.
  - simpl. lia.
Defined.

(** C6, evaluated where it fails.  After [toaster_set(1)] the second call
    of [toaster_check] fails (the counter went below 0), yet call number
    [2^31 + 2] reports pass: [toaster_check] has no floor for [gcnt], the
    decrement at [INT_MIN] overflows and the counter wraps to [INT_MAX]. *)
Lemma check_wraps_to_pass :
  nth_check 1 (toaster_set 1 toaster_init) = fail /\
  gcnt (check_n 2 (toaster_set 1 toaster_init)) < 0 /\
  nth_check (Z.to_nat 2147483649) (toaster_set 1 toaster_init) = pass.
Proof.
  split; [reflexivity|]. split; [reflexivity|].
  rewrite nth_check_armed.
  - rewrite Z2Nat.id by lia. reflexivity.
  - cbn. lia.
  - cbn. unfold in_range, INT_MIN, INT_MAX. lia.
Qed.

(** C7.  Whatever the budget held before, after [toaster_end()] every call
    of [toaster_check] returns pass and leaves the budget as it is, so this
    lasts until the next [toaster_set].  In particular after
    [toaster_set(0)] the first and the second [toaster_check] return fail,
    and after a [toaster_end()] the next one returns pass. *)
Theorem toaster_end_then_checks (t : toaster) (j : nat) :
  nth_check j (toaster_end t) = pass /\
  check_n j (toaster_end t) = toaster_end t /\
  nth_check 0 (toaster_set 0 t) = fail /\
  nth_check 1 (toaster_set 0 t) = fail /\
  nth_check 0 (toaster_end (check_n 2 (toaster_set 0 t))) = pass.
Proof.
  assert (D : check_n j (toaster_end t) = toaster_end t)
    by (apply check_n_disarmed; reflexivity).
  repeat split; try reflexivity; try assumption.
  unfold nth_check. rewrite D. reflexivity.
Qed.




(** ** Traces *)

Lemma outcomes_app tr1 tr2 : outcomes (tr1 ++ tr2) = outcomes tr1 ++ outcomes tr2.
Proof. apply flat_map_app. Qed.

Lemma budgets_app tr1 tr2 : budgets (tr1 ++ tr2) = budgets tr1 ++ budgets tr2.
Proof. apply flat_map_app. Qed.

Lemma checks_app tr1 tr2 : checks (tr1 ++ tr2) = checks tr1 ++ checks tr2.
Proof. apply flat_map_app. Qed.

Lemma calls_app tr1 tr2 : calls (tr1 ++ tr2) = (calls tr1 + calls tr2)%nat.
Proof. unfold calls. rewrite flat_map_app. apply length_app. Qed.

Lemma last_cons_default {A : Type} (l : list A) : forall (x d : A),
  last (x :: l) d = last l x.
Proof.
  induction l as [|y l IH]; intros x d; [reflexivity|].
  change (last (x :: y :: l) d) with (last (y :: l) d).
  rewrite (IH y d), (IH y x). reflexivity.
Qed.

Section HarnessFacts.

Variable W : Type.

(** *** Code under test *)

(** Only the driver invokes the function under test: the function's own
    code leaves no call or return event. *)
Lemma exec_no_driver_events {A : Type} (p : prog W A) : forall m,
  outcomes (trace_of (exec p m)) = [] /\ calls (trace_of (exec p m)) = O.
Proof.
  induction p as [a|k IH|k IH|cnt k IH|k IH|e k IH]; intros m; cbn [exec].
  - split; reflexivity.
  - destruct (toaster_check (budget m)) as [r t].
    specialize (IH r (mkMem (world m) t)).
    destruct (exec (k r) (mkMem (world m) t)) as [[a m'] tr]. exact IH.
  - apply IH.
  - specialize (IH (mkMem (world m) (toaster_set cnt (budget m)))).
    destruct (exec k _) as [[a m'] tr]. exact IH.
  - specialize (IH (mkMem (world m) (toaster_end (budget m)))).
    destruct (exec k _) as [[a m'] tr]. exact IH.
  - destruct (e (world m)) as [v w]. apply IH.
Qed.

Lemma exec_no_arm_budgets {A : Type} (p : prog W A) : forall m,
  no_arm p -> budgets (trace_of (exec p m)) = [].
Proof.
  induction p as [a|k IH|k IH|cnt k IH|k IH|e k IH]; intros m N;
    cbn [exec]; cbn [no_arm] in N.
  - reflexivity.
  - destruct (toaster_check (budget m)) as [r t].
    specialize (IH r (mkMem (world m) t) (N r)).
    destruct (exec (k r) (mkMem (world m) t)) as [[a m'] tr]. exact IH.
  - apply IH, N.
  - contradiction.
  - specialize (IH (mkMem (world m) (toaster_end (budget m))) N).
    destruct (exec k _) as [[a m'] tr]. exact IH.
  - destruct (e (world m)) as [v w]. apply IH, N.
Qed.

(** Entered with the budget disarmed, code that does not arm it sees every
    [toaster_check] pass and leaves the budget disarmed. *)
Lemma exec_disarmed {A : Type} (p : prog W A) : forall m,
  no_arm p -> gset (budget m) = 0 ->
  Forall (fun r => r = pass) (checks (trace_of (exec p m))) /\
  gset (budget (mem_of (exec p m))) = 0.
Proof.
  induction p as [a|k IH|k IH|cnt k IH|k IH|e k IH]; intros m N D;
    cbn [exec]; cbn [no_arm] in N.
  - split; [constructor|exact D].
  - rewrite toaster_check_disarmed by exact D.
    specialize (IH pass (mkMem (world m) (budget m)) (N pass) D).
    destruct (exec (k pass) _) as [[a m'] tr]. cbn [fst snd] in *.
    destruct IH as [IH1 IH2]. split; [|exact IH2].
    change (checks (EvCheck pass :: tr)) with (pass :: checks tr).
    constructor; [reflexivity|exact IH1].
  - apply IH; [apply N|exact D].
  - contradiction.
  - specialize (IH (mkMem (world m) (toaster_end (budget m))) N eq_refl).
    destruct (exec k _) as [[a m'] tr]. exact IH.
  - destruct (e (world m)) as [v w]. apply IH; [apply N|exact D].
Qed.

(** *** One invocation *)

Lemma call_outcomes (test : prog W Z) m :
  outcomes (trace_of (call test m)) = [value_of (call test m)].
Proof.
  unfold call. pose proof (exec_no_driver_events test m) as [H _].
  destruct (exec test m) as [[err m'] tr]. cbn [fst snd] in *.
  change (outcomes (EvCall :: tr ++ [EvRet err]))
    with (outcomes (tr ++ [EvRet err])).
  rewrite outcomes_app, H. reflexivity.
Qed.

Lemma call_calls (test : prog W Z) m : calls (trace_of (call test m)) = 1%nat.
Proof.
  unfold call. pose proof (exec_no_driver_events test m) as [_ H].
  destruct (exec test m) as [[err m'] tr]. cbn [fst snd] in *.
  change (EvCall :: tr ++ [EvRet err]) with ([EvCall] ++ tr ++ [EvRet err]).
  rewrite !calls_app, H. reflexivity.
Qed.

Lemma call_budgets (test : prog W Z) m :
  no_arm test -> budgets (trace_of (call test m)) = [].
Proof.
  intros N. unfold call. pose proof (exec_no_arm_budgets test m N) as H.
  destruct (exec test m) as [[err m'] tr]. cbn [fst snd] in *.
  change (budgets (EvCall :: tr ++ [EvRet err]))
    with (budgets (tr ++ [EvRet err])).
  rewrite budgets_app, H. reflexivity.
Qed.

(** *** The loop of [toaster_run_range] *)

Lemma run_loop_exit fuel (test : prog W Z) i max err m :
  (i <=? max) && negb (err =? 0) = false ->
  run_loop (S fuel) test i max err m = (Some err, m, []).
Proof. intros H. cbn [run_loop]. rewrite H. reflexivity. Qed.

Lemma run_loop_iter fuel (test : prog W Z) i max err m :
  i <= max -> err <> 0 ->
  run_loop (S fuel) test i max err m =
    (let m1 := mkMem (world m) (toaster_set i (budget m)) in
     let r1 := call test m1 in
     let r2 := run_loop fuel test (wrap (i + 1)) max (value_of r1) (mem_of r1) in
     (value_of r2, mem_of r2, EvSet i :: trace_of r1 ++ trace_of r2)).
Proof.
  intros Hi He. cbn [run_loop].
  apply Z.leb_le in Hi. apply Z.eqb_neq in He. rewrite Hi, He. cbn [andb negb].
  cbv zeta. destruct (call test _) as [[err' m2] tr]. cbn [fst snd].
  destruct (run_loop fuel test _ max err' m2) as [[r m3] tr']. reflexivity.
Qed.

Lemma run_loop_cases (i max err : Z) :
  (i <= max /\ err <> 0) \/ (i <=? max) && negb (err =? 0) = false.
Proof.
  destruct (i <=? max) eqn:Hi; [|right; reflexivity].
  destruct (err =? 0) eqn:He; [right; reflexivity|].
  left. split; [apply Z.leb_le, Hi|apply Z.eqb_neq, He].
Qed.

(** The value returned is the outcome of the last invocation made, or the
    initial [err] when none was made. *)
Lemma run_loop_last (test : prog W Z) max fuel : forall i err0 m err,
  value_of (run_loop fuel test i max err0 m) = Some err ->
  err = last (outcomes (trace_of (run_loop fuel test i max err0 m))) err0.
Proof.
  induction fuel as [|fuel IH]; intros i err0 m err H.
  - discriminate H.
  - destruct (run_loop_cases i max err0) as [[Hi He]|Hx].
    + rewrite run_loop_iter in * by assumption. cbv zeta in *.
      cbn [fst snd] in *. apply IH in H.
      change (outcomes (EvSet i :: ?t)) with (outcomes t).
      rewrite outcomes_app, call_outcomes. cbn [app].
      rewrite last_cons_default. exact H.
    + rewrite run_loop_exit in * by assumption. cbn in *. congruence.
Qed.

(** Once an invocation has returned 0 the loop makes no further one. *)
Lemma run_loop_after_success (test : prog W Z) max fuel i m :
  trace_of (run_loop fuel test i max 0 m) = [].
Proof.
  destruct fuel as [|fuel]; [reflexivity|].
  rewrite run_loop_exit; [reflexivity|].
  rewrite andb_false_r. reflexivity.
Qed.

Lemma run_loop_stops_at_success (test : prog W Z) max fuel : forall i err0 m,
  Forall (fun e => e <> 0)
    (removelast (outcomes (trace_of (run_loop fuel test i max err0 m)))).
Proof.
  induction fuel as [|fuel IH]; intros i err0 m.
  - constructor.
  - destruct (run_loop_cases i max err0) as [[Hi He]|Hx].
    + rewrite run_loop_iter by assumption. cbv zeta. cbn [fst snd].
      change (outcomes (EvSet i :: ?t)) with (outcomes t).
      rewrite outcomes_app, call_outcomes. cbn [app].
      set (r1 := call test _).
      destruct (Z.eq_dec (value_of r1) 0) as [E|E].
      * rewrite E, run_loop_after_success. constructor.
      * specialize (IH (wrap (i + 1)) (value_of r1) (mem_of r1)).
        destruct (outcomes (trace_of (run_loop fuel test _ max _ (mem_of r1))))
          as [|o os] eqn:Eo; [constructor|].
        change (removelast (value_of r1 :: o :: os))
          with (value_of r1 :: removelast (o :: os)).
        constructor; assumption.
    + rewrite run_loop_exit by assumption. constructor.
Qed.

(** Below [INT_MAX] the index never wraps and the loop makes at most
    [max - i + 1] invocations, whatever the fuel. *)
Lemma run_loop_calls_le (test : prog W Z) max fuel : forall i err0 m,
  in_range i -> max < INT_MAX ->
  (calls (trace_of (run_loop fuel test i max err0 m))
     <= Z.to_nat (max - i + 1))%nat.
Proof.
  induction fuel as [|fuel IH]; intros i err0 m Ri Hm.
  - cbn. lia.
  - destruct (run_loop_cases i max err0) as [[Hi He]|Hx].
    + rewrite run_loop_iter by assumption. cbv zeta. cbn [fst snd].
      change (EvSet i :: ?a ++ ?b) with ([EvSet i] ++ a ++ b).
      rewrite !calls_app, call_calls.
      assert (Rw : wrap (i + 1) = i + 1)
        by (apply wrap_id; unfold in_range, INT_MIN, INT_MAX in *; lia).
      rewrite Rw.
      match goal with |- context [run_loop fuel test (i + 1) max ?e ?m'] =>
        specialize (IH (i + 1) e m') end.
      assert (in_range (i + 1))
        by (unfold in_range, INT_MIN, INT_MAX in *; lia).
      specialize (IH H Hm). change (calls [EvSet i]) with O. lia.
    + rewrite run_loop_exit by assumption. cbn. lia.
Qed.

(** ... and with [max - i + 2] units of fuel it returns. *)
Lemma run_loop_returns (test : prog W Z) max fuel : forall i err0 m,
  in_range i -> max < INT_MAX ->
  (Z.to_nat (max - i + 1) < fuel)%nat ->
  exists err, value_of (run_loop fuel test i max err0 m) = Some err.
Proof.
  induction fuel as [|fuel IH]; intros i err0 m Ri Hm Hf; [lia|].
  destruct (run_loop_cases i max err0) as [[Hi He]|Hx].
  - rewrite run_loop_iter by assumption. cbv zeta. cbn [fst snd].
    assert (Rw : wrap (i + 1) = i + 1)
      by (apply wrap_id; unfold in_range, INT_MIN, INT_MAX in *; lia).
    rewrite Rw. apply IH; [|assumption|lia].
    unfold in_range, INT_MIN, INT_MAX in *; lia.
  - rewrite run_loop_exit by assumption. exists err0. reflexivity.
Qed.

End HarnessFacts.

Lemma last_default_or_in {A : Type} (l : list A) : forall d,
  l = [] \/ In (last l d) l.
Proof.
  induction l as [|x l IH]; intros d; [left; reflexivity|right].
  rewrite last_cons_default. destruct (IH x) as [->|H].
  - left. reflexivity.
  - right. exact H.
Qed.

(** ** The run driver *)

Section Driver.

Variable W : Type.

Lemma toaster_run_range_unfold fuel min max (test : prog W Z) m :
  let l := run_loop fuel test min max (-1) m in
  forall err, value_of l = Some err ->
  toaster_run_range fuel min max test m =
    (Some err, mkMem (world (mem_of l)) (toaster_end (budget (mem_of l))),
     trace_of l ++ [EvEnd]).
Proof.
  cbv zeta. intros err H. unfold toaster_run_range.
  destruct (run_loop fuel test min max (-1) m) as [[[e|] m'] tr];
    cbn [fst snd] in *; [|discriminate]. congruence.
Qed.

Lemma toaster_run_range_value fuel min max (test : prog W Z) m :
  value_of (toaster_run_range fuel min max test m) =
  value_of (run_loop fuel test min max (-1) m).
Proof.
  unfold toaster_run_range.
  destruct (run_loop fuel test min max (-1) m) as [[[e|] m'] tr]; reflexivity.
Qed.

Lemma toaster_run_range_calls fuel min max (test : prog W Z) m :
  calls (trace_of (toaster_run_range fuel min max test m)) =
  calls (trace_of (run_loop fuel test min max (-1) m)).
Proof.
  unfold toaster_run_range.
  destruct (run_loop fuel test min max (-1) m) as [[[e|] m'] tr];
    cbn [fst snd]; [|reflexivity].
  rewrite calls_app. cbn. lia.
Qed.

(** For [min <= max < INT_MAX] the driver invokes the function at most
    [max - min + 1] times, returns once it has [max - min + 2] units of
    fuel, and no invocation follows one that returned 0. *)
Lemma toaster_run_range_bounded fuel min max (test : prog W Z) m :
  in_range min -> min <= max < INT_MAX ->
  (Z.of_nat (calls (trace_of (toaster_run_range fuel min max test m)))
     <= max - min + 1) /\
  ((Z.to_nat (max - min + 1) < fuel)%nat ->
   exists err, value_of (toaster_run_range fuel min max test m) = Some err).
Proof.
  intros R [H1 H2]. split.
  - rewrite toaster_run_range_calls.
    pose proof (run_loop_calls_le W test max fuel min (-1) m R H2). lia.
  - intros Hf. rewrite toaster_run_range_value.
    apply run_loop_returns; assumption.
Qed.

(** An invocation that returns 0 is the last one, and the driver then
    returns 0. *)
Lemma toaster_run_range_success fuel min max (test : prog W Z) m err :
  value_of (toaster_run_range fuel min max test m) = Some err ->
  Forall (fun e => e <> 0)
    (removelast (outcomes (trace_of (toaster_run_range fuel min max test m))))
  /\ (In 0 (outcomes (trace_of (toaster_run_range fuel min max test m))) ->
      err = 0).
Proof.
  intros H. rewrite toaster_run_range_value in H.
  rewrite (toaster_run_range_unfold fuel min max test m err H).
  cbn [fst snd]. rewrite outcomes_app. change (outcomes [EvEnd]) with (@nil Z).
  rewrite app_nil_r.
  pose proof (run_loop_stops_at_success W test max fuel min (-1) m) as S.
  pose proof (run_loop_last W test max fuel min (-1) m err H) as L.
  split; [exact S|]. intros I.
  destruct (outcomes (trace_of (run_loop fuel test min max (-1) m)))
    as [|o os] eqn:Eo using rev_ind; [contradiction|].
  rewrite last_last in L. subst o.
  rewrite removelast_last in S. apply in_app_or in I.
  destruct I as [I|[I|[]]]; [|congruence].
  rewrite Forall_forall in S. exfalso. exact (S 0 I eq_refl).
Qed.

(** Whenever [toaster_run_range(min, max, test)] returns, the budget is
    disarmed ([gcnt = 0], [gset = 0], so [toaster_get] reports -1); and if no
    invocation returned 0, the value returned is non-zero and is the outcome
    of the last invocation (the initial -1 when there was none).  That it
    does return is [toaster_run_range_returns_disarmed], below [INT_MAX]. *)
Theorem toaster_run_range_disarms fuel min max (test : prog W Z) m err :
  value_of (toaster_run_range fuel min max test m) = Some err ->
  budget (mem_of (toaster_run_range fuel min max test m)) = mkToaster 0 0 /\
  toaster_get (budget (mem_of (toaster_run_range fuel min max test m))) = -1 /\
  (~ In 0 (outcomes (trace_of (toaster_run_range fuel min max test m))) ->
   err <> 0 /\
   err = last (outcomes (trace_of (toaster_run_range fuel min max test m)))
              (-1)).
Proof.
  intros H. rewrite toaster_run_range_value in H.
  rewrite (toaster_run_range_unfold fuel min max test m err H).
  cbn [fst snd budget]. split; [reflexivity|]. split; [reflexivity|].
  rewrite outcomes_app. change (outcomes [EvEnd]) with (@nil Z).
  rewrite app_nil_r. intros N.
  pose proof (run_loop_last W test max fuel min (-1) m err H) as L.
  split; [|exact L].
  destruct (last_default_or_in
    (outcomes (trace_of (run_loop fuel test min max (-1) m))) (-1)) as [E|I].
  - rewrite E in L. cbn in L. lia.
  - rewrite <- L in I. intros ->. contradiction.
Qed.

(** C8.  [toaster_run_max(max, test)] and [toaster_run_range(0, max, test)]
    return the same value, leave the same memory and produce the same trace
    of budget calls and invocations, for the same fuel. *)
Theorem toaster_run_max_is_range_from_0 fuel max (test : prog W Z) m :
  toaster_run_max fuel max test m = toaster_run_range fuel 0 max test m /\
  trace_of (toaster_run_max fuel max test m) =
    trace_of (toaster_run_range fuel 0 max test m) /\
  value_of (toaster_run_max fuel max test m) =
    value_of (run_loop fuel test 0 max (-1) m).
Proof.
  split; [reflexivity|]. split; [reflexivity|].
  unfold toaster_run_max. apply toaster_run_range_value.
Qed.

(** C9.  With [min > max] the loop test fails at once:
    [toaster_run_range(min, max, test)] returns -1 without invoking [test],
    and the only thing it does is [toaster_end()]. *)
Theorem toaster_run_range_empty fuel min max (test : prog W Z) m :
  max < min ->
  toaster_run_range (S fuel) min max test m =
    (Some (-1), mkMem (world m) (mkToaster 0 0), [EvEnd]) /\
  calls (trace_of (toaster_run_range (S fuel) min max test m)) = O.
Proof.
  intros H.
  assert (E : toaster_run_range (S fuel) min max test m =
              (Some (-1), mkMem (world m) (mkToaster 0 0), [EvEnd])).
  { unfold toaster_run_range. rewrite run_loop_exit; [reflexivity|].
    apply andb_false_iff. left. apply Z.leb_gt. exact H. }
  split; [exact E|]. rewrite E. reflexivity.
Qed.

(** C5 (as amended).  [toaster_run(test)] is one invocation of [test] and
    nothing else: it returns what [test] returns, leaves the memory [test]
    leaves, and the trace holds only [test]'s own events between the call
    and the return.  When the budget is disarmed at the call and [test]
    does not arm it, every [toaster_check] during the call returns pass. *)
Theorem toaster_run_transparent (test : prog W Z) m :
  toaster_run test m =
    (value_of (exec test m), mem_of (exec test m),
     EvCall :: trace_of (exec test m) ++ [EvRet (value_of (exec test m))]) /\
  (gset (budget m) = 0 -> no_arm test ->
   Forall (fun r => r = pass) (checks (trace_of (toaster_run test m))) /\
   budgets (trace_of (toaster_run test m)) = []).
Proof.
  assert (E : toaster_run test m =
    (value_of (exec test m), mem_of (exec test m),
     EvCall :: trace_of (exec test m) ++ [EvRet (value_of (exec test m))])).
  { unfold toaster_run, call. destruct (exec test m) as [[err m'] tr].
    reflexivity. }
  split; [exact E|]. intros D N. split.
  - rewrite E. cbn [fst snd].
    change (checks (EvCall :: ?t)) with (checks t).
    rewrite checks_app. change (checks [EvRet _]) with (@nil Z).
    rewrite app_nil_r. apply (exec_disarmed W test m N D).
  - apply call_budgets, N.
Qed.

End Driver.

Lemma toaster_run_transparent_witness :
  toaster_run Sample.one_test (mkMem tt toaster_init) =
    (0, mkMem tt toaster_init, [EvCall; EvCheck 0; EvRet 0]) /\
  Forall (fun r => r = pass)
    (checks (trace_of (toaster_run Sample.one_test (mkMem tt toaster_init)))) /\
  budgets (trace_of (toaster_run Sample.one_test (mkMem tt toaster_init))) = [].
Proof.
  destruct (toaster_run_transparent unit Sample.one_test
              (mkMem tt toaster_init)) as [E H].
  split; [exact E|]. apply H.
  - reflexivity.
  - simpl. intros r. destruct (negb (r =? 0)); simpl; auto.
    intros v. destruct (v =? 0); simpl; auto.
Defined.

(** C5 as stated fails: [toaster_run] does not disarm.  Called while the
    budget is armed with 0, the one checkpoint of the sample function is
    forced to fail and the function returns -1; with the budget disarmed
    the same function returns 0. *)
Lemma toaster_run_armed_injects :
  toaster_run Sample.one_test (mkMem tt (toaster_set 0 toaster_init)) =
    (-1, mkMem tt (mkToaster (-1) 1), [EvCall; EvCheck fail; EvRet (-1)]) /\
  value_of (toaster_run Sample.one_test (mkMem tt toaster_init)) = 0.
Proof. split; reflexivity. Qed.

Lemma toaster_run_range_disarms_witness :
  budget (mem_of (toaster_run_range 3 4 5 Sample.never
                    (mkMem tt toaster_init))) = mkToaster 0 0 /\
  toaster_get (budget (mem_of (toaster_run_range 3 4 5 Sample.never
                    (mkMem tt toaster_init)))) = -1 /\
  (~ In 0 (outcomes (trace_of (toaster_run_range 3 4 5 Sample.never
                    (mkMem tt toaster_init)))) ->
   -1 <> 0 /\
   -1 = last (outcomes (trace_of (toaster_run_range 3 4 5 Sample.never
                    (mkMem tt toaster_init)))) (-1)).
Proof.
  apply (toaster_run_range_disarms unit 3 4 5 Sample.never
           (mkMem tt toaster_init) (-1)).
  reflexivity.
Defined.

Lemma toaster_run_range_empty_witness :
  toaster_run_range 1 7 3 Sample.open_configure_bind (mkMem O toaster_init) =
    (Some (-1), mkMem O (mkToaster 0 0), [EvEnd]) /\
  calls (trace_of (toaster_run_range 1 7 3 Sample.open_configure_bind
                     (mkMem O toaster_init))) = O.
Proof.
  apply (toaster_run_range_empty nat 0 7 3 Sample.open_configure_bind
           (mkMem O toaster_init)).
  lia.
Defined.

(** ** The loop index at [INT_MAX] *)

(** With [max = INT_MAX] the loop test [i <= max] holds for every [int], and
    [++i] at [INT_MAX] wraps to [INT_MIN]: a function that never succeeds is
    invoked once per unit of fuel and the loop never returns. *)
Lemma run_loop_never_int_max fuel : forall i err m,
  in_range i -> err <> 0 ->
  value_of (run_loop fuel Sample.never i INT_MAX err m) = None /\
  calls (trace_of (run_loop fuel Sample.never i INT_MAX err m)) = fuel.
Proof.
  induction fuel as [|fuel IH]; intros i err m R He.
  - split; reflexivity.
  - rewrite run_loop_iter by (unfold in_range in R; lia || assumption).
    cbv zeta. cbn [fst snd].
    change (EvSet i :: ?a ++ ?b) with ([EvSet i] ++ a ++ b).
    rewrite !calls_app, call_calls.
    destruct (IH (wrap (i + 1)) (-1)
                (mkMem (world m) (toaster_set i (budget m)))
                (wrap_range _) ltac:(lia)) as [V C].
    split; [exact V|]. cbn in C |- *. rewrite C. reflexivity.
Qed.

(** C4, evaluated where it fails.  [toaster_run_range(INT_MAX, INT_MAX,
    test)] with a [test] that always returns -1: here [max - min + 1 = 1],
    but for every amount of fuel the driver has not returned and has invoked
    [test] once per unit of fuel; with two units it has already made two
    invocations. *)
Theorem toaster_run_range_int_max_overruns (fuel : nat) :
  value_of (toaster_run_range fuel INT_MAX INT_MAX Sample.never
              (mkMem tt toaster_init)) = None /\
  calls (trace_of (toaster_run_range fuel INT_MAX INT_MAX Sample.never
                     (mkMem tt toaster_init))) = fuel /\
  trace_of (toaster_run_range 2 INT_MAX INT_MAX Sample.never
              (mkMem tt toaster_init)) =
    [EvSet INT_MAX; EvCall; EvRet (-1); EvSet INT_MIN; EvCall; EvRet (-1)].
Proof.
  assert (R : in_range INT_MAX) by (unfold in_range, INT_MIN, INT_MAX; lia).
  destruct (run_loop_never_int_max fuel INT_MAX (-1) (mkMem tt toaster_init)
              R ltac:(lia)) as [V C].
  split; [|split].
  - rewrite toaster_run_range_value. exact V.
  - rewrite toaster_run_range_calls. exact C.
  - reflexivity.
Qed.

Lemma run_loop_never_int_max_armed fuel : forall i err m,
  in_range i -> err <> 0 ->
  gset (budget (mem_of (run_loop (S fuel) Sample.never i INT_MAX err m))) = 1 /\
  outcomes (trace_of (run_loop (S fuel) Sample.never i INT_MAX err m)) =
    repeat (-1) (S fuel).
Proof.
  induction fuel as [|fuel IH]; intros i err m R He.
  - rewrite run_loop_iter by (unfold in_range in R; lia || assumption).
    split; reflexivity.
  - rewrite run_loop_iter by (unfold in_range in R; lia || assumption).
    cbv zeta. cbn [fst snd].
    destruct (IH (wrap (i + 1)) (-1)
                (mkMem (world m) (toaster_set i (budget m)))
                (wrap_range _) ltac:(lia)) as [A O].
    split.
    + exact A.
    + change (EvSet i :: ?a ++ ?b) with ([EvSet i] ++ a ++ b).
      rewrite !outcomes_app. cbn in O |- *. rewrite O. reflexivity.
Qed.

(** C3, evaluated where it fails.  [toaster_run_range(INT_MAX, INT_MAX,
    test)] with a [test] that always returns -1.  The range holds the one
    budget [INT_MAX], so after the first invocation it is exhausted without
    a success and -1 is the last failing outcome.  The driver does not
    return it: for every amount of fuel it has not returned, every
    invocation made has returned -1, and the budget is still armed, since
    [toaster_end()] is never reached. *)
Theorem toaster_run_range_int_max_stays_armed (fuel : nat) :
  value_of (toaster_run_range (S fuel) INT_MAX INT_MAX Sample.never
              (mkMem tt toaster_init)) = None /\
  gset (budget (mem_of (toaster_run_range (S fuel) INT_MAX INT_MAX
                          Sample.never (mkMem tt toaster_init)))) = 1 /\
  outcomes (trace_of (toaster_run_range (S fuel) INT_MAX INT_MAX
                        Sample.never (mkMem tt toaster_init))) =
    repeat (-1) (S fuel) /\
  budgets (trace_of (toaster_run_range 1 INT_MAX INT_MAX Sample.never
                       (mkMem tt toaster_init))) = [INT_MAX].
Proof.
  assert (R : in_range INT_MAX) by (unfold in_range, INT_MIN, INT_MAX; lia).
  destruct (run_loop_never_int_max (S fuel) INT_MAX (-1)
              (mkMem tt toaster_init) R ltac:(lia)) as [V _].
  destruct (run_loop_never_int_max_armed fuel INT_MAX (-1)
              (mkMem tt toaster_init) R ltac:(lia)) as [A O].
  assert (E : toaster_run_range (S fuel) INT_MAX INT_MAX Sample.never
                (mkMem tt toaster_init) =
              run_loop (S fuel) Sample.never INT_MAX INT_MAX (-1)
                (mkMem tt toaster_init)).
  { unfold toaster_run_range.
    destruct (run_loop (S fuel) Sample.never INT_MAX INT_MAX (-1)
                (mkMem tt toaster_init)) as [[[e|] m'] tr];
      [discriminate V|reflexivity]. }
  rewrite E. repeat split; assumption.
Qed.

(** ** Sweeping a function with [k] checkpoints *)

Section Sweep.

Variable W : Type.

(** Armed with [c], a function with [k] checkpoints succeeds when [k <= c]
    and otherwise runs into the forced failure of checkpoint [c + 1]. *)
Lemma checkpoints_outcome k (p : prog W Z) : checkpoints k p ->
  forall c w, 0 <= c <= INT_MAX ->
  (value_of (exec p (mkMem w (mkToaster c 1))) =? 0) = (Z.of_nat k <=? c).
Proof.
  induction 1 as [|k p Hp IH Hf|k p Hp IH|k e p Hp IH]; intros c w Hc.
  - cbn. symmetry. apply Z.leb_le. lia.
  - cbn [exec budget world]. rewrite toaster_check_armed by (cbn; lia).
    cbn [gcnt gset]. unfold INT_MAX in Hc.
    rewrite wrap_id by (unfold in_range, INT_MIN, INT_MAX; lia).
    rewrite Nat2Z.inj_succ.
    destruct (c - 1 <? 0) eqn:E.
    + apply Z.ltb_lt in E. specialize (Hf (mkMem w (mkToaster (c - 1) 1))).
      destruct (exec (p fail) _) as [[a m'] tr]. cbn [fst snd] in *.
      apply Z.eqb_neq in Hf. rewrite Hf. symmetry. apply Z.leb_gt. lia.
    + apply Z.ltb_ge in E.
      specialize (IH (c - 1) w ltac:(unfold INT_MAX; lia)).
      destruct (exec (p pass) _) as [[a m'] tr]. cbn [fst snd] in *.
      rewrite IH. destruct (Z.of_nat k <=? c - 1) eqn:E1; symmetry;
        [apply Z.leb_le in E1; apply Z.leb_le
        |apply Z.leb_gt in E1; apply Z.leb_gt]; lia.
  - cbn [exec]. apply IH, Hc.
  - cbn [exec budget world]. specialize (IH w c).
    destruct (e w) as [v w']. cbn [fst] in IH. apply IH, Hc.
Qed.

Lemma tests_no_arm (cleanup : W -> W) (l : list (W -> Z * W)) : forall err,
  no_arm (tests l err (exit_section cleanup)).
Proof.
  induction l as [|e l IH]; intros err; cbn [tests].
  - cbn. auto.
  - unfold TEST. cbn [no_arm]. intros r.
    destruct (negb (r =? 0)); [cbn; auto|].
    cbn [no_arm]. intros v. destruct (v =? 0); [cbn; auto|apply IH].
Qed.

(** [k] uses of [TEST] in sequence, with real conditions that hold, make a
    function with [k] checkpoints: the macro sends a forced failure to the
    exit section with [err = -1]. *)
Lemma tests_checkpoints (cleanup : W -> W) (l : list (W -> Z * W)) :
  Forall holds l -> checkpoints (length l) (tests l 0 (exit_section cleanup)).
Proof.
  induction l as [|e l IH]; intros H; cbn [tests length].
  - unfold exit_section. apply cp_expr. intros w. apply cp_return.
  - inversion H as [|e' l' He Hl]; subst. unfold TEST. apply cp_check.
    + cbn. apply cp_expr. intros w. specialize (He w).
      apply Z.eqb_neq in He. rewrite He. apply IH, Hl.
    + intros m. cbn. lia.
Qed.

Lemma checkpoint_fn_sweepable (es : list (W -> Z * W)) (cleanup : W -> W) :
  Forall holds es ->
  checkpoints (length es) (checkpoint_fn es cleanup) /\
  no_arm (checkpoint_fn es cleanup).
Proof.
  intros H. split; [apply tests_checkpoints, H|apply tests_no_arm].
Qed.

Variable test : prog W Z.
Variable k : nat.
Hypothesis test_checkpoints : checkpoints k test.
Hypothesis test_no_arm : no_arm test.

Lemma sweep_call c m : 0 <= c <= INT_MAX ->
  let r := call test (mkMem (world m) (toaster_set c (budget m))) in
  (value_of r =? 0) = (Z.of_nat k <=? c) /\
  outcomes (trace_of r) = [value_of r] /\
  calls (trace_of r) = 1%nat /\
  budgets (trace_of r) = [].
Proof.
  intros Hc r. subst r. split; [|split; [|split]].
  - unfold call, toaster_set.
    pose proof (checkpoints_outcome k test test_checkpoints c (world m) Hc)
      as H.
    destruct (exec test _) as [[a m'] tr]. exact H.
  - apply call_outcomes.
  - apply call_calls.
  - apply call_budgets, test_no_arm.
Qed.

(** The loop from index [i] with [d] checkpoints still to be forced. *)
Lemma run_loop_sweep max (d : nat) : forall fuel i err0 m,
  err0 <> 0 -> 0 <= i ->
  i + Z.of_nat d = Z.of_nat k ->
  Z.of_nat k <= max <= INT_MAX ->
  (d + 2 <= fuel)%nat ->
  let r := run_loop fuel test i max err0 m in
  value_of r = Some 0 /\
  budgets (trace_of r) = Zseq i (S d) /\
  map succeeded (outcomes (trace_of r)) = repeat false d ++ [true] /\
  calls (trace_of r) = S d.
Proof.
  induction d as [|d IH]; intros fuel i err0 m He Hi Hk Hmax Hf r; subst r.
  - destruct fuel as [|[|fuel]]; try lia.
    rewrite run_loop_iter by lia. cbv zeta. cbn [fst snd].
    destruct (sweep_call i m ltac:(lia)) as [V [O [C B]]].
    cbv zeta in V, O, C, B.
    replace (Z.of_nat k <=? i) with true in V by (symmetry; apply Z.leb_le; lia).
    apply Z.eqb_eq in V. rewrite V in *.
    rewrite run_loop_exit by apply andb_false_r.
    cbn [fst snd]. rewrite app_nil_r.
    change (EvSet i :: ?t) with ([EvSet i] ++ t).
    rewrite budgets_app, outcomes_app, calls_app, B, O, C.
    repeat split.
  - destruct fuel as [|fuel]; try lia.
    rewrite run_loop_iter by lia. cbv zeta. cbn [fst snd].
    destruct (sweep_call i m ltac:(lia)) as [V [O [C B]]].
    cbv zeta in V, O, C, B.
    replace (Z.of_nat k <=? i) with false in V by (symmetry; apply Z.leb_gt; lia).
    assert (Rw : wrap (i + 1) = i + 1)
      by (apply wrap_id; unfold in_range, INT_MIN, INT_MAX in *; lia).
    rewrite Rw.
    match goal with |- context [run_loop fuel _ (i + 1) max ?e ?m'] =>
      destruct (IH fuel (i + 1) e m'
                  ltac:(apply Z.eqb_neq; exact V) ltac:(lia) ltac:(lia)
                  Hmax ltac:(lia)) as [V' [B' [O' C']]] end.
    cbv zeta in V', B', O', C'.
    change (EvSet i :: ?a ++ ?b) with ([EvSet i] ++ a ++ b).
    rewrite !budgets_app, !outcomes_app, !calls_app, !map_app, B, O, C,
      B', O', C'.
    cbn [map]. unfold succeeded at 2. rewrite V.
    repeat split. exact V'.
Qed.

(** C2.  Let [test] have exactly [k] checkpoints on its success path and
    propagate every forced checkpoint failure (and not arm the budget
    itself).  For [k <= max <= INT_MAX], so in particular for [max = k],
    [toaster_run_max(max, test)] returns 0 and disarms; it makes exactly
    [k + 1] invocations, armed with 0, 1, ..., k in this order; the first
    [k] of them fail and the last, armed with [k], is the only one that
    succeeds. *)
Theorem toaster_run_max_sweeps (max : Z) (fuel : nat) (m : mem W) :
  Z.of_nat k <= max <= INT_MAX ->
  (k + 2 <= fuel)%nat ->
  let r := toaster_run_max fuel max test m in
  value_of r = Some 0 /\
  budget (mem_of r) = mkToaster 0 0 /\
  calls (trace_of r) = S k /\
  budgets (trace_of r) = Zseq 0 (S k) /\
  map succeeded (outcomes (trace_of r)) = repeat false k ++ [true].
Proof.
  intros Hmax Hf r. subst r. unfold toaster_run_max.
  destruct (run_loop_sweep max k fuel 0 (-1) m
              ltac:(lia) ltac:(lia) ltac:(lia) Hmax Hf) as [V [B [O C]]].
  cbv zeta in V, B, O, C.
  rewrite (toaster_run_range_unfold W fuel 0 max _ m 0 V).
  cbn [fst snd budget].
  rewrite calls_app, budgets_app, outcomes_app, map_app, B, O, C.
  cbn [calls budgets outcomes flat_map length app map].
  rewrite !app_nil_r, Nat.add_0_r. repeat split.
Qed.

End Sweep.

(** The whole sweep of the three-checkpoint function: the forced failure
    moves from the first checkpoint to the second to the third, and the
    attempt armed with 3 passes them all. *)
Example open_configure_bind_sweep :
  toaster_run_max 5 10 Sample.open_configure_bind (mkMem O toaster_init) =
    (Some 0, mkMem O (mkToaster 0 0),
     [EvSet 0; EvCall; EvCheck (-1); EvRet (-1);
      EvSet 1; EvCall; EvCheck 0; EvCheck (-1); EvRet (-1);
      EvSet 2; EvCall; EvCheck 0; EvCheck 0; EvCheck (-1); EvRet (-1);
      EvSet 3; EvCall; EvCheck 0; EvCheck 0; EvCheck 0; EvRet 0;
      EvEnd]).
Proof. reflexivity. Qed.

(** The three-checkpoint function swept with [toaster_run_max(10, ...)]:
    four invocations, budgets 0, 1, 2 failing and budget 3 succeeding. *)
Lemma toaster_run_max_sweeps_witness :
  let r := toaster_run_max 5 10 Sample.open_configure_bind
             (mkMem O toaster_init) in
  value_of r = Some 0 /\
  budget (mem_of r) = mkToaster 0 0 /\
  calls (trace_of r) = 4%nat /\
  budgets (trace_of r) = [0; 1; 2; 3] /\
  map succeeded (outcomes (trace_of r)) = [false; false; false; true].
Proof.
  assert (H : Forall holds
            [Sample.open_handle; Sample.configure; Sample.bind_handle])
    by (repeat constructor; intros w; cbn; lia).
  apply (toaster_run_max_sweeps nat Sample.open_configure_bind 3
           (proj1 (checkpoint_fn_sweepable nat _ Sample.release H))
           (proj2 (checkpoint_fn_sweepable nat _ Sample.release H))).
  - unfold INT_MAX. cbn. lia.
  - cbn. lia.
Defined.

(** ** Reading the counter *)

(** X1.  While the counter has not wrapped, [toaster_get] after
    [toaster_set(n)] and [j] calls of [toaster_check] returns [n - j]: every
    armed call takes exactly one off, also once the counter is negative. *)
Theorem toaster_get_counts_down (n : Z) (t : toaster) (j : nat) :
  in_range n -> INT_MIN <= n - Z.of_nat j ->
  toaster_get (check_n j (toaster_set n t)) = n - Z.of_nat j.
Proof.
  intros R L.
  rewrite check_n_armed by (cbn [gset gcnt toaster_set]; (lia || assumption)).
  cbn [gcnt gset toaster_set]. unfold toaster_get. cbn [gset gcnt].
  change (negb (1 =? 0)) with true. cbv iota.
  apply wrap_id. unfold in_range, INT_MIN, INT_MAX in *. lia.
Qed.

Lemma toaster_get_counts_down_witness :
  toaster_get (check_n 5 (toaster_set 3 toaster_init)) = 3 - Z.of_nat 5.
Proof.
  apply (toaster_get_counts_down 3 toaster_init 5).
  - unfold in_range, INT_MIN, INT_MAX. lia.
  - unfold INT_MIN. simpl. lia.
Defined.

(** X2.  The value -1 of [toaster_get] does not identify a disarmed budget:
    after [toaster_set(n)] and the [n + 1] calls of [toaster_check] that use
    the budget up, [toaster_get] returns -1 as it does after
    [toaster_end()], although the next [toaster_check] fails in the first
    state and passes in the second. *)
Theorem toaster_get_sentinel_ambiguous (n : Z) (t : toaster) :
  0 <= n <= INT_MAX ->
  let used_up := check_n (S (Z.to_nat n)) (toaster_set n t) in
  toaster_get used_up = -1 /\ toaster_get (toaster_end t) = -1 /\
  nth_check 0 used_up = fail /\ nth_check 0 (toaster_end t) = pass.
Proof.
  intros Hn used_up. unfold INT_MAX in Hn.
  assert (E : used_up = mkToaster (-1) 1).
  { subst used_up.
    rewrite check_n_armed
      by (cbn [gset gcnt toaster_set];
          unfold in_range, INT_MIN, INT_MAX; lia).
    cbn [gcnt gset toaster_set]. f_equal.
    rewrite Nat2Z.inj_succ, Z2Nat.id by lia.
    replace (n - Z.succ n) with (-1) by lia. reflexivity. }
  rewrite E. repeat split.
Qed.

Lemma toaster_get_sentinel_ambiguous_witness :
  let used_up := check_n (S (Z.to_nat 2)) (toaster_set 2 toaster_init) in
  toaster_get used_up = -1 /\ toaster_get (toaster_end toaster_init) = -1 /\
  nth_check 0 used_up = fail /\ nth_check 0 (toaster_end toaster_init) = pass.
Proof.
  apply (toaster_get_sentinel_ambiguous 2 toaster_init).
  unfold INT_MAX. lia.
Defined.

(** ** More on the run driver *)

Section DriverMore.

Variable W : Type.

(** X3.  A sweep does not depend on the state the budget was left in: the
    driver arms before every invocation and disarms at the end, so from two
    memories that differ only in the budget it returns the same value,
    leaves the same memory and produces the same trace. *)
Theorem toaster_run_range_ignores_prior_budget fuel min max
    (test : prog W Z) (w : W) (t1 t2 : toaster) :
  toaster_run_range (S fuel) min max test (mkMem w t1) =
  toaster_run_range (S fuel) min max test (mkMem w t2).
Proof.
  unfold toaster_run_range. cbn [run_loop].
  destruct ((min <=? max) && negb (-1 =? 0)); reflexivity.
Qed.

(** The loop when every attempt in the range fails. *)
Lemma run_loop_exhausts (test : prog W Z) max :
  max < INT_MAX ->
  forall (d : nat) fuel i err0 m,
  (forall j w, i <= j <= max ->
     value_of (exec test (mkMem w (mkToaster j 1))) <> 0) ->
  in_range i -> err0 <> 0 ->
  i + Z.of_nat d = max + 1 -> (d < fuel)%nat ->
  let r := run_loop fuel test i max err0 m in
  (exists err, value_of r = Some err /\ err <> 0) /\
  calls (trace_of r) = d.
Proof.
  intros Hmax. induction d as [|d IH]; intros fuel i err0 m F R He Hd Hf r;
    subst r; (destruct fuel as [|fuel]; [lia|]).
  - rewrite run_loop_exit
      by (apply andb_false_iff; left; apply Z.leb_gt; lia).
    split; [exists err0; split; [reflexivity|assumption]|reflexivity].
  - rewrite run_loop_iter by (lia || assumption). cbv zeta. cbn [fst snd].
    change (EvSet i :: ?a ++ ?b) with ([EvSet i] ++ a ++ b).
    rewrite !calls_app, call_calls.
    assert (Rw : wrap (i + 1) = i + 1)
      by (apply wrap_id; unfold in_range, INT_MIN, INT_MAX in *; lia).
    rewrite Rw.
    assert (V : value_of (call test (mkMem (world m)
                                      (toaster_set i (budget m)))) <> 0).
    { unfold call. specialize (F i (world m) ltac:(lia)).
      unfold toaster_set.
      destruct (exec test _) as [[e m'] tr]. exact F. }
    match goal with |- context [run_loop fuel test (i + 1) max ?e ?m'] =>
      destruct (IH fuel (i + 1) e m') as [X C] end;
      try (lia || assumption).
    + intros j w Hj. apply F. lia.
    + unfold in_range, INT_MIN, INT_MAX in *. lia.
    + cbv zeta in X, C. split; [exact X|].
      rewrite C. reflexivity.
Qed.

(** X4.  Exhaustion.  When the function fails under every budget of the
    range [min .. max] (with [max < INT_MAX]), [toaster_run_range] invokes
    it exactly [max - min + 1] times, returns a non-zero value, the outcome
    of the last invocation, and leaves the budget disarmed. *)
Theorem toaster_run_range_exhausts fuel min max (test : prog W Z) m :
  in_range min -> min <= max < INT_MAX ->
  (forall j w, min <= j <= max ->
     value_of (exec test (mkMem w (mkToaster j 1))) <> 0) ->
  (Z.to_nat (max - min + 1) < fuel)%nat ->
  let r := toaster_run_range fuel min max test m in
  (exists err, value_of r = Some err /\ err <> 0 /\
               err = last (outcomes (trace_of r)) (-1)) /\
  calls (trace_of r) = Z.to_nat (max - min + 1) /\
  budget (mem_of r) = mkToaster 0 0.
Proof.
  intros R [H1 H2] F Hf r. subst r.
  destruct (run_loop_exhausts test max H2 (Z.to_nat (max - min + 1))
              fuel min (-1) m F R ltac:(lia) ltac:(lia) Hf)
    as [[err [V He]] C].
  cbv zeta in V, C.
  rewrite (toaster_run_range_unfold W fuel min max test m err V).
  cbn [fst snd budget].
  rewrite calls_app, outcomes_app, C.
  change (outcomes [EvEnd]) with (@nil Z). rewrite app_nil_r.
  split; [|split; [cbn; lia|reflexivity]].
  exists err. split; [reflexivity|]. split; [exact He|].
  apply (run_loop_last W test max fuel min (-1) m err V).
Qed.

(** X6.  A range that ends below the number of checkpoints cannot reach the
    success path: for a function with [k] checkpoints and
    [0 <= min <= max < k], the sweep fails after [max - min + 1]
    invocations. *)
Theorem toaster_run_range_too_short fuel min max (test : prog W Z) k m :
  checkpoints k test ->
  0 <= min <= max -> max < Z.of_nat k -> max < INT_MAX ->
  (Z.to_nat (max - min + 1) < fuel)%nat ->
  let r := toaster_run_range fuel min max test m in
  (exists err, value_of r = Some err /\ err <> 0) /\
  calls (trace_of r) = Z.to_nat (max - min + 1).
Proof.
  intros Hk Hmin Hmax Hmax' Hf r. subst r.
  assert (F : forall j w, min <= j <= max ->
            value_of (exec test (mkMem w (mkToaster j 1))) <> 0).
  { intros j w Hj.
    pose proof (checkpoints_outcome W k test Hk j w ltac:(lia)) as H.
    apply Z.eqb_neq. rewrite H. apply Z.leb_gt. lia. }
  destruct (run_loop_exhausts test max Hmax' (Z.to_nat (max - min + 1))
              fuel min (-1) m F
              ltac:(unfold in_range, INT_MIN, INT_MAX in *; lia)
              ltac:(lia) ltac:(lia) Hf)
    as [[err [V He]] C].
  cbv zeta in V, C.
  rewrite (toaster_run_range_unfold W fuel min max test m err V).
  cbn [fst snd]. rewrite calls_app, C.
  split; [exists err; split; [reflexivity|exact He]|cbn; lia].
Qed.

(** The loop on a function with [k] checkpoints, entered at any index:
    [d] is the number of attempts that fail before the first success. *)
Lemma run_loop_first_success (test : prog W Z) (k : nat) max :
  checkpoints k test -> no_arm test ->
  Z.of_nat k <= max -> max <= INT_MAX ->
  forall (d : nat) fuel i err0 m,
  err0 <> 0 -> 0 <= i <= max ->
  Z.max i (Z.of_nat k) = i + Z.of_nat d ->
  (d + 2 <= fuel)%nat ->
  let r := run_loop fuel test i max err0 m in
  value_of r = Some 0 /\
  budgets (trace_of r) = Zseq i (S d) /\
  map succeeded (outcomes (trace_of r)) = repeat false d ++ [true] /\
  calls (trace_of r) = S d.
Proof.
  intros Hk Hn Hkm Hmax.
  induction d as [|d IH]; intros fuel i err0 m He Hi Hd Hf r; subst r.
  - destruct fuel as [|[|fuel]]; try lia.
    rewrite run_loop_iter by lia. cbv zeta. cbn [fst snd].
    destruct (sweep_call W test k Hk Hn i m ltac:(lia)) as [V [O [C B]]].
    cbv zeta in V, O, C, B.
    replace (Z.of_nat k <=? i) with true in V
      by (symmetry; apply Z.leb_le; lia).
    apply Z.eqb_eq in V. rewrite V in *.
    rewrite run_loop_exit by apply andb_false_r.
    cbn [fst snd]. rewrite app_nil_r.
    change (EvSet i :: ?t) with ([EvSet i] ++ t).
    rewrite budgets_app, outcomes_app, calls_app, B, O, C.
    repeat split.
  - destruct fuel as [|fuel]; try lia.
    rewrite run_loop_iter by lia. cbv zeta. cbn [fst snd].
    destruct (sweep_call W test k Hk Hn i m ltac:(lia)) as [V [O [C B]]].
    cbv zeta in V, O, C, B.
    replace (Z.of_nat k <=? i) with false in V
      by (symmetry; apply Z.leb_gt; lia).
    assert (Rw : wrap (i + 1) = i + 1)
      by (apply wrap_id; unfold in_range, INT_MIN, INT_MAX in *; lia).
    rewrite Rw.
    match goal with |- context [run_loop fuel _ (i + 1) max ?e ?m'] =>
      destruct (IH fuel (i + 1) e m'
                  ltac:(apply Z.eqb_neq; exact V) ltac:(lia) ltac:(lia)
                  ltac:(lia)) as [V' [B' [O' C']]] end.
    cbv zeta in V', B', O', C'.
    change (EvSet i :: ?a ++ ?b) with ([EvSet i] ++ a ++ b).
    rewrite !budgets_app, !outcomes_app, !calls_app, !map_app, B, O, C,
      B', O', C'.
    cbn [map]. unfold succeeded at 2. rewrite V.
    repeat split. exact V'.
Qed.

(** X5.  [toaster_run_range] from any lower bound.  For a function with [k]
    checkpoints and [0 <= min <= max <= INT_MAX] with [k <= max], the sweep
    succeeds at budget [Z.max min k], after [Z.max min k - min] failing
    attempts.  In particular with [min >= k] the first invocation already
    succeeds: a sweep started beyond the last checkpoint forces no failure
    at all. *)
Theorem toaster_run_range_first_success fuel min max (test : prog W Z)
    (k : nat) m :
  checkpoints k test -> no_arm test ->
  0 <= min <= max -> max <= INT_MAX -> Z.of_nat k <= max ->
  (Z.to_nat (Z.max min (Z.of_nat k) - min) + 2 <= fuel)%nat ->
  let d := Z.to_nat (Z.max min (Z.of_nat k) - min) in
  let r := toaster_run_range fuel min max test m in
  value_of r = Some 0 /\
  calls (trace_of r) = S d /\
  budgets (trace_of r) = Zseq min (S d) /\
  map succeeded (outcomes (trace_of r)) = repeat false d ++ [true] /\
  (Z.of_nat k <= min -> calls (trace_of r) = 1%nat).
Proof.
  intros Hk Hn Hmin Hmax Hkm Hf d r. subst r.
  destruct (run_loop_first_success test k max Hk Hn Hkm Hmax d fuel min (-1) m
              ltac:(lia) ltac:(lia) ltac:(subst d; lia) Hf)
    as [V [B [O C]]].
  cbv zeta in V, B, O, C.
  rewrite (toaster_run_range_unfold W fuel min max test m 0 V).
  cbn [fst snd].
  rewrite calls_app, budgets_app, outcomes_app, map_app, B, O, C.
  cbn [calls budgets outcomes flat_map length app map].
  rewrite !app_nil_r, Nat.add_0_r. repeat split.
  intros Hge. subst d. replace (Z.max min (Z.of_nat k) - min) with 0 by lia.
  reflexivity.
Qed.

End DriverMore.

Lemma toaster_run_range_exhausts_witness :
  let r := toaster_run_range 4 1 2 Sample.never (mkMem tt toaster_init) in
  (exists err, value_of r = Some err /\ err <> 0 /\
               err = last (outcomes (trace_of r)) (-1)) /\
  calls (trace_of r) = Z.to_nat (2 - 1 + 1) /\
  budget (mem_of r) = mkToaster 0 0.
Proof.
  apply (toaster_run_range_exhausts unit 4 1 2 Sample.never
           (mkMem tt toaster_init)).
  - unfold in_range, INT_MIN, INT_MAX. lia.
  - unfold INT_MAX. lia.
  - intros j w H. cbn. lia.
  - cbn. lia.
Defined.

Lemma toaster_run_range_too_short_witness :
  let r := toaster_run_range 4 0 2 Sample.open_configure_bind
             (mkMem O toaster_init) in
  (exists err, value_of r = Some err /\ err <> 0) /\
  calls (trace_of r) = Z.to_nat (2 - 0 + 1).
Proof.
  assert (H : Forall holds
            [Sample.open_handle; Sample.configure; Sample.bind_handle])
    by (repeat constructor; intros w; cbn; lia).
  apply (toaster_run_range_too_short nat 4 0 2 Sample.open_configure_bind 3
           (mkMem O toaster_init)
           (proj1 (checkpoint_fn_sweepable nat _ Sample.release H))).
  - lia.
  - cbn. lia.
  - unfold INT_MAX. lia.
  - cbn. lia.
Defined.

Lemma toaster_run_range_first_success_witness :
  let d := Z.to_nat (Z.max 5 (Z.of_nat 3) - 5) in
  let r := toaster_run_range 2 5 10 Sample.open_configure_bind
             (mkMem O toaster_init) in
  value_of r = Some 0 /\
  calls (trace_of r) = S d /\
  budgets (trace_of r) = Zseq 5 (S d) /\
  map succeeded (outcomes (trace_of r)) = repeat false d ++ [true] /\
  (Z.of_nat 3 <= 5 -> calls (trace_of r) = 1%nat).
Proof.
  assert (H : Forall holds
            [Sample.open_handle; Sample.configure; Sample.bind_handle])
    by (repeat constructor; intros w; cbn; lia).
  apply (toaster_run_range_first_success nat 2 5 10
           Sample.open_configure_bind 3 (mkMem O toaster_init)
           (proj1 (checkpoint_fn_sweepable nat _ Sample.release H))
           (proj2 (checkpoint_fn_sweepable nat _ Sample.release H))).
  - lia.
  - unfold INT_MAX. lia.
  - cbn. lia.
  - cbn. lia.
Defined.

(** ** The [TEST] macro *)

Lemma checks_repeat (r : Z) (n : nat) :
  checks (repeat (EvCheck r) n) = repeat r n.
Proof.
  induction n as [|n IH]; [reflexivity|].
  cbn [repeat]. change (checks (EvCheck r :: ?t)) with (r :: checks t).
  rewrite IH. reflexivity.
Qed.

Section MacroFacts.

Variable W : Type.
Variable cleanup : W -> W.

Lemma exec_CallCheck {A : Type} (k : Z -> prog W A) m :
  exec (CallCheck k) m =
    (let rt := toaster_check (budget m) in
     let r := exec (k (fst rt)) (mkMem (world m) (snd rt)) in
     (value_of r, mem_of r, EvCheck (fst rt) :: trace_of r)).
Proof.
  cbn [exec]. destruct (toaster_check (budget m)) as [r t]. cbn [fst snd].
  destruct (exec (k r) _) as [[a m'] tr]. reflexivity.
Qed.

Lemma exec_Expr {A : Type} (e : W -> Z * W) (k : Z -> prog W A) m :
  exec (Expr e k) m =
    exec (k (fst (e (world m)))) (mkMem (snd (e (world m))) (budget m)).
Proof. cbn [exec]. destruct (e (world m)) as [v w]. reflexivity. Qed.

Lemma exec_exit_section err m :
  exec (exit_section cleanup err) m =
    (err, mkMem (cleanup (world m)) (budget m), []).
Proof. reflexivity. Qed.

(** X7.  The error slot is sticky.  Code made of [TEST]s and entered with
    [err] returns [err] unchanged, or -1 when [err] was 0: a failing
    checkpoint never overwrites an error already recorded, and the only
    values a function that starts from [err = 0] returns are 0 and -1.
    This holds for every state of the budget. *)
Theorem TEST_error_is_sticky (es : list (W -> Z * W)) : forall err m,
  value_of (exec (tests es err (exit_section cleanup)) m) = err \/
  (err = 0 /\ value_of (exec (tests es err (exit_section cleanup)) m) = -1).
Proof.
  assert (X : forall err m,
    value_of (exec (exit_section cleanup (fail_with err)) m) = err \/
    (err = 0 /\
     value_of (exec (exit_section cleanup (fail_with err)) m) = -1)).
  { intros err m. rewrite exec_exit_section. cbn [fst]. unfold fail_with.
    destruct (err =? 0) eqn:E.
    - right. apply Z.eqb_eq in E. split; [exact E|reflexivity].
    - left. reflexivity. }
  induction es as [|e l IH]; intros err m; cbn [tests].
  - left. reflexivity.
  - unfold TEST. rewrite exec_CallCheck. cbv zeta. cbn [fst snd].
    destruct (negb (fst (toaster_check (budget m)) =? 0)); [apply X|].
    rewrite exec_Expr.
    destruct (fst (e _) =? 0); [apply X|apply IH].
Qed.

(** One attempt, armed with [c], of a function whose real conditions hold. *)
Lemma tests_attempt (es : list (W -> Z * W)) : Forall holds es ->
  forall c w, 0 <= c <= INT_MAX ->
  exec (tests es 0 (exit_section cleanup)) (mkMem w (mkToaster c 1)) =
    (if c <? Z.of_nat (length es) then -1 else 0,
     mkMem (cleanup (snd (run_exprs (firstn (Z.to_nat c) es) w)))
           (mkToaster (if c <? Z.of_nat (length es) then -1
                       else c - Z.of_nat (length es)) 1),
     repeat (EvCheck pass) (Nat.min (Z.to_nat c) (length es)) ++
     (if c <? Z.of_nat (length es) then [EvCheck fail] else [])).
Proof.
  induction es as [|e l IH]; intros H c w Hc.
  - cbn [tests length]. rewrite exec_exit_section. cbn [world budget].
    change (Z.of_nat 0) with 0.
    replace (c <? 0) with false by (symmetry; apply Z.ltb_ge; lia).
    rewrite firstn_nil, Nat.min_0_r, Z.sub_0_r. reflexivity.
  - inversion H as [|e' l' He Hl]; subst.
    cbn [tests length]. unfold TEST. rewrite exec_CallCheck.
    cbv zeta. cbn [budget world].
    rewrite toaster_check_armed by (cbn; lia). cbn [fst snd gcnt gset].
    unfold INT_MAX in Hc.
    rewrite wrap_id by (unfold in_range, INT_MIN, INT_MAX; lia).
    rewrite Nat2Z.inj_succ.
    destruct (c - 1 <? 0) eqn:E.
    + apply Z.ltb_lt in E. assert (c = 0) by lia. subst c.
      replace (0 <? Z.succ (Z.of_nat (length l))) with true
        by (symmetry; apply Z.ltb_lt; lia).
      reflexivity.
    + apply Z.ltb_ge in E. change (negb (pass =? 0)) with false. cbv iota.
      rewrite exec_Expr. cbn [world budget].
      specialize (He w). apply Z.eqb_neq in He. rewrite He.
      rewrite (IH Hl (c - 1) (snd (e w)) ltac:(unfold INT_MAX; lia)).
      replace (Z.to_nat c) with (S (Z.to_nat (c - 1))) by lia.
      cbn [firstn run_exprs Nat.min repeat app].
      destruct (e w) as [v w'] eqn:Ee. cbn [fst snd] in *. rewrite He.
      replace (c <? Z.succ (Z.of_nat (length l)))
        with (c - 1 <? Z.of_nat (length l))
        by (destruct (c - 1 <? Z.of_nat (length l)) eqn:E1; symmetry;
            [apply Z.ltb_lt in E1; apply Z.ltb_lt
            |apply Z.ltb_ge in E1; apply Z.ltb_ge]; lia).
      replace (c - Z.succ (Z.of_nat (length l)))
        with (c - 1 - Z.of_nat (length l)) by lia.
      reflexivity.
Qed.

(** X8.  One attempt in full.  Armed with [c], a function of [k]
    checkpoints whose real conditions hold carries out exactly its first
    [min c k] real operations, then runs its cleanup (on success and on
    failure alike) and returns -1 if [c < k] and 0 otherwise; its checks are
    [min c k] passes followed, if [c < k], by the one forced failure; the
    counter is left at -1 after a forced failure and at [c - k] otherwise. *)
Theorem checkpoint_fn_attempt (es : list (W -> Z * W)) (c : Z) (w : W) :
  Forall holds es -> 0 <= c <= INT_MAX ->
  let k := Z.of_nat (length es) in
  exec (checkpoint_fn es cleanup) (mkMem w (mkToaster c 1)) =
    (if c <? k then -1 else 0,
     mkMem (cleanup (snd (run_exprs (firstn (Z.to_nat c) es) w)))
           (mkToaster (if c <? k then -1 else c - k) 1),
     repeat (EvCheck pass) (Nat.min (Z.to_nat c) (length es)) ++
     (if c <? k then [EvCheck fail] else [])).
Proof. intros H Hc k. subst k. apply tests_attempt; assumption. Qed.

(** X10.  The build without [-DTOASTER].  The function never calls into the
    budget: it leaves it as it found it and produces no event.  It returns 0
    when every real condition holds and -1 otherwise, having carried out the
    real operations up to the first that fails, and then its cleanup. *)
Theorem plain_fn_exec (es : list (W -> Z * W)) (m : mem W) :
  exec (plain_fn es cleanup) m =
    (if fst (run_exprs es (world m)) then 0 else -1,
     mkMem (cleanup (snd (run_exprs es (world m)))) (budget m),
     []).
Proof.
  unfold plain_fn. revert m.
  induction es as [|e l IH]; intros m; cbn [tests_plain run_exprs].
  - reflexivity.
  - unfold TEST_plain. rewrite exec_Expr.
    destruct (e (world m)) as [v w'] eqn:Ee. cbn [fst snd].
    destruct (v =? 0).
    + reflexivity.
    + rewrite IH. reflexivity.
Qed.

(** X11.  With the budget disarmed the instrumented build behaves as the
    plain one: same value returned, same memory left (the budget untouched),
    every [toaster_check] of the run passing. *)
Theorem checkpoint_fn_disarmed_is_plain (es : list (W -> Z * W)) (m : mem W) :
  gset (budget m) = 0 ->
  value_of (exec (checkpoint_fn es cleanup) m) =
    value_of (exec (plain_fn es cleanup) m) /\
  mem_of (exec (checkpoint_fn es cleanup) m) =
    mem_of (exec (plain_fn es cleanup) m) /\
  Forall (fun r => r = pass)
    (checks (trace_of (exec (checkpoint_fn es cleanup) m))).
Proof.
  unfold checkpoint_fn, plain_fn. revert m.
  induction es as [|e l IH]; intros m D; cbn [tests tests_plain].
  - repeat split. constructor.
  - unfold TEST, TEST_plain. rewrite exec_CallCheck, !exec_Expr.
    rewrite toaster_check_disarmed by exact D.
    cbv zeta. cbn [fst snd world budget].
    change (negb (pass =? 0)) with false. cbv iota. rewrite exec_Expr.
    cbn [world budget].
    change (checks (EvCheck pass :: ?t)) with (pass :: checks t).
    destruct (fst (e (world m)) =? 0).
    + repeat split. repeat constructor.
    + destruct (IH (mkMem (snd (e (world m))) (budget m)) D) as [V [M C]].
      repeat split; try assumption. constructor; [reflexivity|exact C].
Qed.

End MacroFacts.

Lemma checkpoint_fn_attempt_witness :
  let k := Z.of_nat 3 in
  exec Sample.open_configure_bind (mkMem O (mkToaster 2 1)) =
    (if 2 <? k then -1 else 0,
     mkMem (Sample.release
              (snd (run_exprs (firstn (Z.to_nat 2)
                 [Sample.open_handle; Sample.configure; Sample.bind_handle])
                 O)))
           (mkToaster (if 2 <? k then -1 else 2 - k) 1),
     repeat (EvCheck pass) (Nat.min (Z.to_nat 2) 3) ++
     (if 2 <? k then [EvCheck fail] else [])).
Proof.
  apply (checkpoint_fn_attempt nat Sample.release
           [Sample.open_handle; Sample.configure; Sample.bind_handle] 2 O).
  - repeat constructor; intros w; cbn; lia.
  - unfold INT_MAX. lia.
Defined.

Lemma checkpoint_fn_disarmed_is_plain_witness :
  value_of (exec Sample.open_configure_bind (mkMem O toaster_init)) =
    value_of (exec (plain_fn
                [Sample.open_handle; Sample.configure; Sample.bind_handle]
                Sample.release) (mkMem O toaster_init)) /\
  mem_of (exec Sample.open_configure_bind (mkMem O toaster_init)) =
    mem_of (exec (plain_fn
                [Sample.open_handle; Sample.configure; Sample.bind_handle]
                Sample.release) (mkMem O toaster_init)) /\
  Forall (fun r => r = pass)
    (checks (trace_of (exec Sample.open_configure_bind
                         (mkMem O toaster_init)))).
Proof.
  apply (checkpoint_fn_disarmed_is_plain nat Sample.release
           [Sample.open_handle; Sample.configure; Sample.bind_handle]
           (mkMem O toaster_init)).
  reflexivity.
Defined.

(** ** What a sweep forces *)

Section Coverage.

Variable W : Type.
Variable es : list (W -> Z * W).
Variable cleanup : W -> W.
Hypothesis es_hold : Forall holds es.

Lemma checkpoint_fn_call_checks (n : nat) m :
  Z.of_nat n <= INT_MAX ->
  let r := call (checkpoint_fn es cleanup)
             (mkMem (world m) (toaster_set (Z.of_nat n) (budget m))) in
  value_of r = (if Z.of_nat n <? Z.of_nat (length es) then -1 else 0) /\
  checks (trace_of r) =
    repeat pass (Nat.min n (length es)) ++
    (if Z.of_nat n <? Z.of_nat (length es) then [fail] else []).
Proof.
  intros Hn r. subst r. unfold call, checkpoint_fn, toaster_set.
  rewrite (tests_attempt W cleanup es es_hold (Z.of_nat n) (world m)
             ltac:(lia)).
  cbn [fst snd]. split; [reflexivity|].
  change (checks (EvCall :: ?t)) with (checks t).
  rewrite !checks_app, checks_repeat, Nat2Z.id.
  destruct (Z.of_nat n <? Z.of_nat (length es)); cbn [checks flat_map app];
    rewrite ?app_nil_r; reflexivity.
Qed.

Lemma run_loop_coverage max (d : nat) : forall fuel (n : nat) err0 m,
  err0 <> 0 -> (n + d = length es)%nat ->
  Z.of_nat (length es) <= max <= INT_MAX ->
  (d + 2 <= fuel)%nat ->
  checks (trace_of (run_loop fuel (checkpoint_fn es cleanup)
                      (Z.of_nat n) max err0 m)) =
    flat_map (fun i => repeat pass i ++ [fail]) (seq n d) ++
    repeat pass (length es).
Proof.
  induction d as [|d IH]; intros fuel n err0 m He Hd Hmax Hf.
  - destruct fuel as [|[|fuel]]; try lia.
    rewrite run_loop_iter by lia. cbv zeta. cbn [fst snd].
    destruct (checkpoint_fn_call_checks n m ltac:(lia)) as [V C].
    cbv zeta in V, C.
    replace (Z.of_nat n <? Z.of_nat (length es)) with false in V, C
      by (symmetry; apply Z.ltb_ge; lia).
    rewrite V, run_loop_exit by apply andb_false_r.
    cbn [fst snd]. rewrite app_nil_r.
    change (checks (EvSet ?i :: ?t)) with (checks t).
    rewrite C, app_nil_r. replace n with (length es) by lia.
    rewrite Nat.min_id. reflexivity.
  - destruct fuel as [|fuel]; try lia.
    rewrite run_loop_iter by lia. cbv zeta. cbn [fst snd].
    destruct (checkpoint_fn_call_checks n m ltac:(lia)) as [V C].
    cbv zeta in V, C.
    replace (Z.of_nat n <? Z.of_nat (length es)) with true in V, C
      by (symmetry; apply Z.ltb_lt; lia).
    rewrite V.
    assert (Rw : wrap (Z.of_nat n + 1) = Z.of_nat (S n)).
    { rewrite wrap_id; [lia|].
      unfold in_range, INT_MIN, INT_MAX in *. lia. }
    rewrite Rw.
    change (checks (EvSet ?i :: ?t)) with (checks t).
    rewrite checks_app, C, IH by lia.
    replace (Nat.min n (length es)) with n by lia.
    cbn [seq flat_map]. rewrite <- !app_assoc. reflexivity.
Qed.

(** X9.  Across a sweep every checkpoint is forced to fail exactly once, in
    order.  For a function of [k] checkpoints whose real conditions hold,
    the checks of [toaster_run_max(max, ...)] with [k <= max <= INT_MAX] are:
    for each [i] from 0 to [k - 1], [i] passes and then the forced failure
    of checkpoint [i + 1]; and finally [k] passes. *)
Theorem toaster_run_max_forces_each_checkpoint_once max fuel (m : mem W) :
  Z.of_nat (length es) <= max <= INT_MAX ->
  (length es + 2 <= fuel)%nat ->
  checks (trace_of (toaster_run_max fuel max (checkpoint_fn es cleanup) m)) =
    flat_map (fun i => repeat pass i ++ [fail]) (seq 0 (length es)) ++
    repeat pass (length es).
Proof.
  intros Hmax Hf. unfold toaster_run_max.
  destruct (run_loop_sweep W (checkpoint_fn es cleanup) (length es)
              (proj1 (checkpoint_fn_sweepable W es cleanup es_hold))
              (proj2 (checkpoint_fn_sweepable W es cleanup es_hold))
              max (length es) fuel 0 (-1) m
              ltac:(lia) ltac:(lia) ltac:(lia) Hmax Hf) as [V _].
  cbv zeta in V.
  rewrite (toaster_run_range_unfold W fuel 0 max _ m 0 V). cbn [snd].
  rewrite checks_app. change (checks [EvEnd]) with (@nil Z).
  rewrite app_nil_r.
  apply (run_loop_coverage max (length es) fuel O (-1) m); try lia.
Qed.

End Coverage.

Lemma toaster_run_max_forces_each_checkpoint_once_witness :
  checks (trace_of (toaster_run_max 5 10 Sample.open_configure_bind
                      (mkMem O toaster_init))) =
    flat_map (fun i => repeat pass i ++ [fail]) (seq 0 3) ++ repeat pass 3.
Proof.
  apply (toaster_run_max_forces_each_checkpoint_once nat
           [Sample.open_handle; Sample.configure; Sample.bind_handle]
           Sample.release).
  - repeat constructor; intros w; cbn; lia.
  - unfold INT_MAX. cbn. lia.
  - cbn. lia.
Defined.

(** ** Reasoning about every path *)

Lemma toaster_check_value t :
  fst (toaster_check t) = pass \/ fst (toaster_check t) = fail.
Proof.
  unfold toaster_check. destruct (negb (gset t =? 0)); [|left; reflexivity].
  cbv zeta. destruct (wrap (gcnt t - 1) <? 0);
    [right|left]; reflexivity.
Qed.

Section Paths.

Variable W : Type.

Lemma exec_and_then {A B : Type} (p : prog W A) (f : A -> prog W B) :
  forall m,
  exec (and_then p f) m =
    (let r1 := exec p m in
     let r2 := exec (f (value_of r1)) (mem_of r1) in
     (value_of r2, mem_of r2, trace_of r1 ++ trace_of r2)).
Proof.
  induction p as [a|k IH|k IH|cnt k IH|k IH|e k IH]; intros m;
    cbn [and_then exec]; cbv zeta.
  - cbn [fst snd app]. destruct (exec (f a) m) as [[b m'] tr]. reflexivity.
  - destruct (toaster_check (budget m)) as [r t]. rewrite IH. cbv zeta.
    destruct (exec (k r) _) as [[a m1] tr1]. cbn [fst snd].
    destruct (exec (f a) m1) as [[b m2] tr2]. reflexivity.
  - apply IH.
  - rewrite IH. cbv zeta.
    destruct (exec k _) as [[a m1] tr1]. cbn [fst snd].
    destruct (exec (f a) m1) as [[b m2] tr2]. reflexivity.
  - rewrite IH. cbv zeta.
    destruct (exec k _) as [[a m1] tr1]. cbn [fst snd].
    destruct (exec (f a) m1) as [[b m2] tr2]. reflexivity.
  - destruct (e (world m)) as [v w]. apply IH.
Qed.

Lemma on_every_path_sound {A : Type} (p : prog W A) (Q : A -> W -> Prop) :
  forall m, on_every_path p Q (world m) ->
  Q (value_of (exec p m)) (world (mem_of (exec p m))).
Proof.
  induction p as [a|k IH|k IH|cnt k IH|k IH|e k IH]; intros m H;
    cbn [on_every_path] in H.
  - exact H.
  - rewrite (exec_CallCheck W k m). cbv zeta. cbn [fst snd].
    destruct H as [Hp Hf].
    destruct (toaster_check_value (budget m)) as [E|E]; rewrite E;
      apply IH; assumption.
  - cbn [exec]. apply IH, H.
  - cbn [exec].
    specialize (IH (mkMem (world m) (toaster_set cnt (budget m))) H).
    destruct (exec k _) as [[a m'] tr]. exact IH.
  - cbn [exec].
    specialize (IH (mkMem (world m) (toaster_end (budget m))) H).
    destruct (exec k _) as [[a m'] tr]. exact IH.
  - rewrite (exec_Expr W e k m). apply IH. exact H.
Qed.

Lemma on_every_path_weaken {A : Type} (p : prog W A)
    (Q Q' : A -> W -> Prop) :
  (forall a w, Q a w -> Q' a w) ->
  forall w, on_every_path p Q w -> on_every_path p Q' w.
Proof.
  intros I.
  induction p as [a|k IH|k IH|cnt k IH|k IH|e k IH]; intros w H;
    cbn [on_every_path] in *.
  - apply I, H.
  - destruct H as [Hp Hf]. split; apply IH; assumption.
  - intros v. apply IH, H.
  - apply IH, H.
  - apply IH, H.
  - apply IH, H.
Qed.

Lemma on_every_path_and_then {A B : Type} (p : prog W A) (f : A -> prog W B)
    (Q : B -> W -> Prop) :
  forall w,
  on_every_path p (fun a w' => on_every_path (f a) Q w') w ->
  on_every_path (and_then p f) Q w.
Proof.
  induction p as [a|k IH|k IH|cnt k IH|k IH|e k IH]; intros w H;
    cbn [on_every_path and_then] in *.
  - exact H.
  - destruct H as [Hp Hf]. split; apply IH; assumption.
  - intros v. apply IH, H.
  - apply IH, H.
  - apply IH, H.
  - apply IH, H.
Qed.

Lemma on_every_path_propagates (p : prog W Z) :
  (forall w, on_every_path p (fun v _ => v <> 0) w) -> propagates p.
Proof.
  intros H m.
  apply (on_every_path_sound p (fun v _ => v <> 0) m (H (world m))).
Qed.

End Paths.

(** ** test.c: what the sample functions do *)

Lemma no_arm_and_then {W A B : Type} (p : prog W A) (f : A -> prog W B) :
  no_arm p -> (forall a, no_arm (f a)) -> no_arm (and_then p f).
Proof.
  intros Hp Hf.
  induction p as [a|k IH|k IH|cnt k IH|k IH|e k IH];
    cbn [no_arm and_then] in *; auto.
Qed.

(** Going through every path of a piece of code: split at each
    [toaster_check] and at each condition. *)
Ltac path_step :=
  match goal with
  | |- _ /\ _ => split
  | |- on_every_path ?p _ _ =>
      match p with
      | context [if ?b then _ else _] =>
          lazymatch b with
          | context [fun _ => _] => fail
          | _ => destruct b eqn:?
          end
      end
  | |- on_every_path _ _ _ => progress cbn
  end.

Ltac decide_conditions :=
  repeat match goal with
  | H : negb (_ =? _) = true |- _ => apply negb_true_iff, Z.eqb_neq in H
  | H : negb (_ =? _) = false |- _ => apply negb_false_iff, Z.eqb_eq in H
  | H : (truth ?b =? 0) = false |- _ =>
      destruct b eqn:?; [clear H|discriminate H]
  | H : (truth ?b =? 0) = true |- _ =>
      destruct b eqn:?; [discriminate H|clear H]
  | H : (_ <=? _) = true |- _ => apply Z.leb_le in H
  | H : (_ <=? _) = false |- _ => apply Z.leb_gt in H
  | H : (_ =? _) = true |- _ => apply Z.eqb_eq in H
  | H : (_ =? _) = false |- _ => apply Z.eqb_neq in H
  end.

Ltac fails_everywhere :=
  apply on_every_path_propagates; intros ?w; cbn;
  repeat path_step; cbn; try discriminate; try lia.

Ltac checkpoint_step :=
  match goal with
  | |- checkpoints _ (CallCheck _) => apply cp_check; [cbn|fails_everywhere]
  | |- checkpoints _ (Expr _ _) => apply cp_expr; intros ?w; cbn
  | |- checkpoints _ (Ret _) => apply cp_return
  end.

Ltac no_arm_step :=
  match goal with
  | |- no_arm (and_then _ _) => apply no_arm_and_then
  | |- no_arm (if ?b then _ else _) => destruct b
  | |- no_arm (Ret _) => exact I
  | |- True => exact I
  | |- no_arm _ => progress cbn [no_arm]
  | |- forall _, _ => intro
  end.

Section TestCFacts.

Variable W : Type.
Variable c : libc W.
Variable fds : W -> list Z.
Hypothesis laws : descriptor_laws c fds.

Lemma close_opened s F w :
  fds w = s :: F -> ~ In s F -> fds (close c s w) = F.
Proof.
  intros H N. rewrite (close_closes W c fds laws), H. cbn [remove].
  destruct (Z.eq_dec s s) as [_|X]; [|contradiction].
  apply notin_remove, N.
Qed.

Lemma unix_sock_paths path fd w :
  on_every_path (unix_sock_create_and_bind c path fd)
    (fun r w' =>
       (fst r = 0 /\ snd r <> -1 /\ fds w' = snd r :: fds w /\
        ~ In (snd r) (fds w)) \/
       (fst r = -1 /\ snd r = fd /\ fds w' = fds w)) w.
Proof.
  unfold unix_sock_create_and_bind, socket, bind, TEST, TEST_loc.
  cbn.
  pose proof (socket_opens W c fds laws w) as [S1 S2]. cbv zeta in S1, S2.
  set (s := fst (real_socket c w)) in *.
  set (w1 := snd (real_socket c w)) in *.
  repeat path_step.
  all: try (right; repeat split; auto; fail).
  all: decide_conditions.
  all: rewrite ?(bind_keeps W c fds laws).
  all: try (right; repeat split; auto;
            apply close_opened; rewrite ?(bind_keeps W c fds laws);
            apply S2; assumption).
  all: left; repeat split; try apply S2; lia.
Qed.

Lemma talk_exit_closes a b F w err :
  a <> -1 -> b <> -1 -> fds w = b :: a :: F -> ~ In a F -> ~ In b (a :: F) ->
  on_every_path (talk_exit c (a, b) err) (fun _ w' => fds w' = F) w.
Proof.
  intros Ha Hb E Na Nb. unfold talk_exit. cbn.
  apply Z.eqb_neq in Ha, Hb. rewrite Ha, Hb. cbn [negb].
  rewrite !(unlink_keeps W c fds laws).
  apply close_opened; [|intros I; apply Nb; right; exact I].
  rewrite (close_closes W c fds laws), E. cbn [remove].
  destruct (Z.eq_dec a b) as [X|_]; [exfalso; apply Nb; left; exact X|].
  destruct (Z.eq_dec a a) as [_|X]; [|contradiction].
  rewrite notin_remove by exact Na. reflexivity.
Qed.

Lemma on_every_path_TEST_loc {A L : Type} err (l : L) (expr : prog W (Z * L))
    (CHECK next : L -> Z -> prog W A) (Q : A -> W -> Prop) w :
  on_every_path (CHECK l (fail_with err)) Q w ->
  on_every_path expr
    (fun vl w' =>
       if fst vl =? 0 then on_every_path (CHECK (snd vl) (fail_with err)) Q w'
       else on_every_path (next (snd vl) err) Q w') w ->
  on_every_path (TEST_loc err l expr CHECK next) Q w.
Proof.
  intros Hc He. unfold TEST_loc. cbn [on_every_path]. split.
  - change (negb (pass =? 0)) with false. cbv iota.
    apply on_every_path_and_then.
    apply (on_every_path_weaken W expr _ _) with (2 := He).
    intros vl w'. destruct (fst vl =? 0); auto.
  - exact Hc.
Qed.

Lemma on_every_path_TEST {A : Type} (Inv : W -> Prop) err (e : W -> Z * W)
    (CHECK next : Z -> prog W A) (Q : A -> W -> Prop) w :
  Inv w -> (forall w, Inv w -> Inv (snd (e w))) ->
  (forall w, Inv w -> on_every_path (CHECK (fail_with err)) Q w) ->
  (forall w, Inv w -> on_every_path (next err) Q w) ->
  on_every_path (TEST err e CHECK next) Q w.
Proof.
  intros Hi He Hc Hn. unfold TEST. cbn [on_every_path]. split.
  - change (negb (pass =? 0)) with false. cbv iota.
    cbn [on_every_path]. cbv beta.
    destruct (fst (e w) =? 0); [apply Hc|apply Hn]; apply He, Hi.
  - apply Hc, Hi.
Qed.

Lemma test_talk_paths w :
  on_every_path (test_talk c) (fun _ w' => fds w' = fds w) w.
Proof.
  unfold test_talk.
  apply on_every_path_TEST_loc.
  { cbn. rewrite !(unlink_keeps W c fds laws). reflexivity. }
  apply on_every_path_and_then.
  apply (on_every_path_weaken W _ _ _)
    with (2 := unix_sock_paths Path.foo (-1) w).
  intros [e1 a] w1 [[E1 [Na [F1 I1]]]|[E1 [Na F1]]]; cbn [fst snd] in *;
    subst; cbn [on_every_path fst snd].
  2:{ cbn. rewrite !(unlink_keeps W c fds laws). exact F1. }
  change (truth (0 =? 0) =? 0) with false. cbv iota.
  apply on_every_path_TEST_loc.
  { cbn. apply Z.eqb_neq in Na. rewrite Na. cbn [negb].
    rewrite !(unlink_keeps W c fds laws).
    apply (close_opened a (fds w) w1 F1 I1). }
  apply on_every_path_and_then.
  apply (on_every_path_weaken W _ _ _)
    with (2 := unix_sock_paths Path.bar (-1) w1).
  intros [e2 b] w2 [[E2 [Nb [F2 I2]]]|[E2 [Nb F2]]]; cbn [fst snd] in *;
    subst; cbn [on_every_path fst snd].
  2:{ cbn. apply Z.eqb_neq in Na. rewrite Na. cbn [negb].
      rewrite !(unlink_keeps W c fds laws).
      apply (close_opened a (fds w) w2); [congruence|exact I1]. }
  change (truth (0 =? 0) =? 0) with false. cbv iota.
  rewrite F1 in F2, I2.
  pose (Inv := fun w' : W => fds w' = b :: a :: fds w).
  assert (X : forall w' err, Inv w' ->
            on_every_path (talk_exit c (a, b) err)
              (fun _ w'' => fds w'' = fds w) w').
  { intros w' err Hi. apply talk_exit_closes; assumption. }
  apply (on_every_path_TEST Inv); [exact F2| |intros; apply X; assumption|].
  { intros w' Hi. unfold Inv. cbn [fst].
    destruct (sendto c a Path.bar w') as [n w''] eqn:E. cbn [snd].
    change w'' with (snd (n, w'')). rewrite <- E.
    rewrite (sendto_keeps W c fds laws). exact Hi. }
  intros w3 H3.
  apply (on_every_path_TEST Inv); [exact H3| |intros; apply X; assumption|].
  { intros w' Hi. unfold Inv. cbn [snd].
    destruct (recvfrom c b w') as [n w''] eqn:E. cbn [snd].
    change w'' with (snd (n, w'')). rewrite <- E.
    rewrite (recvfrom_keeps W c fds laws). exact Hi. }
  intros w4 H4.
  apply (on_every_path_TEST Inv); [exact H4|auto|intros; apply X; assumption|].
  intros w5 H5.
  apply (on_every_path_TEST Inv); [exact H5|auto|intros; apply X; assumption|].
  intros w6 H6.
  apply (on_every_path_TEST Inv); [exact H6|auto|intros; apply X; assumption|].
  intros w7 H7. apply X, H7.
Qed.

(** X14.  [unix_sock_create_and_bind] hands out a descriptor or leaks
    none.  In every state of the budget, so whichever of its checks is
    forced to fail, it either returns 0 with [*fd] set to a descriptor that
    was not open before and is open now, or returns -1 with [*fd] untouched
    and exactly the descriptors open that were open before: a socket it
    created has been closed. *)
Theorem unix_sock_create_and_bind_no_leak path fd (m : mem W) :
  let r := exec (unix_sock_create_and_bind c path fd) m in
  let err := fst (value_of r) in
  let out := snd (value_of r) in
  (err = 0 /\ out <> -1 /\
   fds (world (mem_of r)) = out :: fds (world m) /\
   ~ In out (fds (world m))) \/
  (err = -1 /\ out = fd /\ fds (world (mem_of r)) = fds (world m)).
Proof.
  cbv zeta.
  apply (on_every_path_sound W (unix_sock_create_and_bind c path fd)
           (fun r w' =>
              (fst r = 0 /\ snd r <> -1 /\ fds w' = snd r :: fds (world m) /\
               ~ In (snd r) (fds (world m))) \/
              (fst r = -1 /\ snd r = fd /\ fds w' = fds (world m))) m).
  apply unix_sock_paths.
Qed.

(** X15.  [test_talk] leaks no descriptor.  In every state of the budget,
    whether it succeeds or fails at any of its checkpoints, the descriptors
    open when it returns are those that were open when it was called. *)
Theorem test_talk_no_leak (m : mem W) :
  fds (world (mem_of (exec (test_talk c) m))) = fds (world m).
Proof.
  apply (on_every_path_sound W (test_talk c)
           (fun _ w' => fds w' = fds (world m)) m).
  apply test_talk_paths.
Qed.

End TestCFacts.

Section TestCRuns.

Variable W : Type.
Variable c : libc W.
Hypothesis coop : cooperative c.

Lemma test_talk_checkpoints : checkpoints 17 (test_talk c).
Proof.
  destruct coop as [Hs Hp Hb Hsd Hr Hl Ha Hd].
  assert (Hs' : forall w, (0 <=? fst (real_socket c w)) = true)
    by (intros w; apply Z.leb_le, Hs).
  assert (Hp' : (3 <=? sun_path_size c) = true) by (apply Z.leb_le, Hp).
  assert (Hr' : forall s w, (0 <? fst (recvfrom c s w)) = true)
    by (intros s w; apply Z.ltb_lt, Hr).
  unfold test_talk, unix_sock_create_and_bind, socket, bind, talk_exit,
    TEST, TEST_loc.
  cbn.
  repeat (checkpoint_step;
          repeat match goal with
          | |- context [sendto c ?a ?p ?w] =>
              let H := fresh in
              pose proof (Hsd a p w) as H;
              destruct (sendto c a p w); cbn in H; subst; cbn
          | |- context [recvfrom c ?b ?w] =>
              let H := fresh in
              pose proof (Hr' b w) as H;
              destruct (recvfrom c b w); cbn in H; rewrite H; cbn
          end;
          rewrite ?Hs', ?Hp', ?Hb, ?Hl, ?Ha, ?Hd; cbn).
Qed.

Lemma test_talk_no_arm : no_arm (test_talk c).
Proof.
  unfold test_talk, unix_sock_create_and_bind, socket, bind, talk_exit,
    TEST, TEST_loc.
  repeat no_arm_step.
Qed.

(** X12.  [test_talk] has 17 checkpoints: seven [TEST]s of its own and, in
    each of the two calls of [unix_sock_create_and_bind], three [TEST]s and
    the two mocked calls.  When every real operation succeeds, an attempt
    armed with [b] returns 0 exactly when [17 <= b]. *)
Theorem test_talk_succeeds_from_17 (b : Z) (w : W) :
  0 <= b <= INT_MAX ->
  (value_of (exec (test_talk c) (mkMem w (mkToaster b 1))) =? 0) = (17 <=? b).
Proof.
  intros Hb.
  apply (checkpoints_outcome W 17 (test_talk c) test_talk_checkpoints b w Hb).
Qed.

(** X13.  The assertion of [main] holds.  When every real operation
    succeeds, [toaster_run_max(100, test_talk)] returns 0 after 18
    invocations armed with 0 to 17, and [main] returns 0 with the budget
    disarmed. *)
Theorem main_exits_0 (fuel : nat) (m : mem W) :
  (19 <= fuel)%nat ->
  let r := main c fuel m in
  value_of r = Some (Exit 0) /\
  calls (trace_of r) = 18%nat /\
  budgets (trace_of r) = Zseq 0 18 /\
  budget (mem_of r) = mkToaster 0 0.
Proof.
  intros Hf r. subst r. unfold main, toaster_run_max.
  destruct (run_loop_sweep W (test_talk c) 17 test_talk_checkpoints
              test_talk_no_arm 100 17 fuel 0 (-1) m
              ltac:(lia) ltac:(lia) ltac:(lia)
              ltac:(unfold INT_MAX; lia) Hf) as [V [B [O C]]].
  cbv zeta in V, B, O, C.
  rewrite (toaster_run_range_unfold W fuel 0 100 _ m 0 V).
  cbn [fst snd budget Z.eqb].
  rewrite calls_app, budgets_app, B, C.
  repeat split.
Qed.

End TestCRuns.

(** The sample operating system is cooperative and keeps the descriptor
    laws. *)
Lemma fresh_above (w : list Z) : forall x, In x w -> x < SampleOS.fresh w.
Proof.
  unfold SampleOS.fresh.
  induction w as [|y w IH]; intros x H; [contradiction|].
  cbn [fold_right]. destruct H as [->|H]; [lia|].
  specialize (IH x H). lia.
Qed.

Lemma fresh_positive (w : list Z) : 3 <= SampleOS.fresh w.
Proof.
  unfold SampleOS.fresh. induction w as [|y w IH]; cbn [fold_right]; lia.
Qed.

Lemma sample_os_cooperative : cooperative SampleOS.os.
Proof.
  constructor; cbn; intros; try reflexivity; try lia.
  pose proof (fresh_positive w). lia.
Qed.

Lemma sample_os_laws : descriptor_laws SampleOS.os (fun w => w).
Proof.
  constructor; cbn; intros; try reflexivity.
  pose proof (fresh_positive w). split; [lia|].
  intros _. split; [reflexivity|].
  intros I. apply fresh_above in I. lia.
Qed.

Lemma unix_sock_create_and_bind_no_leak_witness :
  let r := exec (unix_sock_create_and_bind SampleOS.os Path.foo (-1))
             (mkMem [] (mkToaster 4 1)) in
  let err := fst (value_of r) in
  let out := snd (value_of r) in
  (err = 0 /\ out <> -1 /\
   world (mem_of r) = out :: [] /\ ~ In out []) \/
  (err = -1 /\ out = -1 /\ world (mem_of r) = []).
Proof.
  apply (unix_sock_create_and_bind_no_leak (list Z) SampleOS.os
           (fun w => w) sample_os_laws Path.foo (-1)
           (mkMem [] (mkToaster 4 1))).
Defined.

Lemma test_talk_no_leak_witness :
  world (mem_of (exec (test_talk SampleOS.os) (mkMem [7] (mkToaster 9 1)))) =
  [7].
Proof.
  apply (test_talk_no_leak (list Z) SampleOS.os (fun w => w) sample_os_laws
           (mkMem [7] (mkToaster 9 1))).
Defined.

Lemma test_talk_succeeds_from_17_witness :
  (value_of (exec (test_talk SampleOS.os) (mkMem [] (mkToaster 16 1))) =? 0)
  = (17 <=? 16).
Proof.
  apply (test_talk_succeeds_from_17 (list Z) SampleOS.os
           sample_os_cooperative 16 []).
  unfold INT_MAX. lia.
Defined.

Lemma main_exits_0_witness :
  let r := main SampleOS.os 19 (mkMem [] toaster_init) in
  value_of r = Some (Exit 0) /\
  calls (trace_of r) = 18%nat /\
  budgets (trace_of r) = Zseq 0 18 /\
  budget (mem_of r) = mkToaster 0 0.
Proof.
  apply (main_exits_0 (list Z) SampleOS.os sample_os_cooperative 19
           (mkMem [] toaster_init)).
  lia.
Defined.

(** ** The sweep below [INT_MAX] *)

(** X16.  For [min <= max < INT_MAX], [toaster_run_range(min, max, test)]
    returns for every [test], after at most [max - min + 1] invocations; no
    invocation follows one that returned 0, and if some invocation returned
    0 the value returned is 0. *)
Theorem toaster_run_range_stops (W : Type) fuel min max (test : prog W Z) m :
  in_range min -> min <= max < INT_MAX ->
  (Z.to_nat (max - min + 1) < fuel)%nat ->
  let r := toaster_run_range fuel min max test m in
  exists err,
    value_of r = Some err /\
    Z.of_nat (calls (trace_of r)) <= max - min + 1 /\
    Forall (fun e => e <> 0) (removelast (outcomes (trace_of r))) /\
    (In 0 (outcomes (trace_of r)) -> err = 0).
Proof.
  intros R H Hf r. subst r.
  destruct (toaster_run_range_bounded W fuel min max test m R H) as [C T].
  destruct (T Hf) as [err V]. exists err.
  destruct (toaster_run_range_success W fuel min max test m err V) as [S Z0].
  repeat split; assumption.
Qed.

Lemma toaster_run_range_stops_witness :
  let r := toaster_run_range 9 2 6 Sample.open_configure_bind
             (mkMem O toaster_init) in
  exists err,
    value_of r = Some err /\
    Z.of_nat (calls (trace_of r)) <= 6 - 2 + 1 /\
    Forall (fun e => e <> 0) (removelast (outcomes (trace_of r))) /\
    (In 0 (outcomes (trace_of r)) -> err = 0).
Proof.
  apply (toaster_run_range_stops nat 9 2 6 Sample.open_configure_bind
           (mkMem O toaster_init)).
  - unfold in_range, INT_MIN, INT_MAX. lia.
  - unfold INT_MAX. lia.
  - cbn. lia.
Defined.

(** X19.  For [max < INT_MAX] (and any [min], also above [max])
    [toaster_run_range(min, max, test)] returns for every [test] once it has
    [max - min + 2] units of fuel, with the budget disarmed, and the value
    returned is the outcome of the last invocation, or -1 when none was
    made; it is non-zero when no invocation returned 0. *)
Theorem toaster_run_range_returns_disarmed (W : Type) fuel min max
    (test : prog W Z) m :
  in_range min -> max < INT_MAX ->
  (Z.to_nat (max - min + 1) < fuel)%nat ->
  let r := toaster_run_range fuel min max test m in
  exists err,
    value_of r = Some err /\
    budget (mem_of r) = mkToaster 0 0 /\
    err = last (outcomes (trace_of r)) (-1) /\
    (~ In 0 (outcomes (trace_of r)) -> err <> 0).
Proof.
  intros R Hmax Hf r. subst r.
  destruct (run_loop_returns W test max fuel min (-1) m R Hmax Hf)
    as [err V].
  exists err.
  rewrite (toaster_run_range_unfold W fuel min max test m err V).
  cbn [fst snd budget].
  rewrite outcomes_app. change (outcomes [EvEnd]) with (@nil Z).
  rewrite app_nil_r.
  pose proof (run_loop_last W test max fuel min (-1) m err V) as L.
  repeat split; try assumption.
  intros N.
  destruct (last_default_or_in
    (outcomes (trace_of (run_loop fuel test min max (-1) m))) (-1)) as [E|I].
  - rewrite E in L. cbn in L. lia.
  - rewrite <- L in I. intros ->. contradiction.
Qed.

Lemma toaster_run_range_returns_disarmed_witness :
  let r := toaster_run_range 4 1 3 Sample.never (mkMem tt toaster_init) in
  exists err,
    value_of r = Some err /\
    budget (mem_of r) = mkToaster 0 0 /\
    err = last (outcomes (trace_of r)) (-1) /\
    (~ In 0 (outcomes (trace_of r)) -> err <> 0).
Proof.
  apply (toaster_run_range_returns_disarmed unit 4 1 3 Sample.never
           (mkMem tt toaster_init)).
  - unfold in_range, INT_MIN, INT_MAX. lia.
  - unfold INT_MAX. lia.
  - cbn. lia.
Defined.
